(** * Auto insurance premium savings estimator: the computation of [src/App.tsx]

    The page computes, on every render, a chain of constants from the six
    fields of the form ([App.tsx], lines 32 to 44).  This file embeds that
    chain and proves the properties stated about it.

    JavaScript numbers are IEEE 754 binary64 values; they are modelled by
    Rocq's primitive [float], which is the same format with the same
    round-to-nearest-even arithmetic.  Nothing is idealised to real or
    rational arithmetic: a literal such as [0.85] is the double nearest to
    85/100 and every [*], [/] and [-] rounds as the processor does.

    Statements about single inputs are settled by evaluation.  Statements
    about every premium go through the specification of the primitive
    operations ([SpecFloat], linked to the primitives by [FloatAxioms]):
    a finite double is counted in units of [2^-1074], which makes it an
    integer, and the operations are shown to round the exact result to the
    nearest double.

    Layout: the model of the source (the computation, then the tables as
    object literals, the selects and the form); exact values and rounding
    on integers; the operations of [SpecFloat]; the primitive operations;
    the factor tables; the properties; then the same lines on inputs
    outside the tables and the non-negative integers, and the form. *)

From Stdlib Require Import ZArith Lia List String Bool.
From Stdlib Require Import Floats.
Import ListNotations.

Set Warnings "-inexact-float".

Local Open Scope string_scope.

(** ** Values that a property read can produce

    A read [o[k]] on an object literal yields the own property when there is
    one, otherwise whatever the prototype chain has under that name
    ([Object.prototype] for a literal), otherwise [undefined]. *)

Inductive jsval : Type :=
| JUndefined
| JNumber (x : float)
| JObject (name : string).   (* a function or an object, by the name read *)

(** [ToNumber]: a number is itself; [undefined], a function or a plain
    object converts to [NaN]. *)
Definition ToNumber (v : jsval) : float :=
  match v with
  | JNumber x => x
  | JUndefined => nan
  | JObject _ => nan
  end.

(** [ToBoolean]: [undefined], [0], [-0] and [NaN] are falsy; objects and
    functions are truthy. *)
Definition ToBoolean (v : jsval) : bool :=
  match v with
  | JUndefined => false
  | JNumber x => negb (is_zero x || is_nan x)
  | JObject _ => true
  end.

(** [a || b] *)
Definition js_or (a b : jsval) : jsval := if ToBoolean a then a else b.

(** ** The input record, [interface SavingsInput] *)

Inductive AgeRange := Age16_19 | Age20_24 | Age25_29 | Age30_64 | Age65_74 | Age75plus.
Inductive VehicleType := sedan | suv | truck | sports | luxury | electric.
Inductive CoverageLevel := minimum | standard | full.
Inductive DrivingHistory := clean | minor.

Record SavingsInput := {
  ageRange : AgeRange;
  state : string;
  vehicleType : VehicleType;
  coverageLevel : CoverageLevel;
  drivingHistory : DrivingHistory;
  currentPremium : float
}.

(** The options of the state selector. *)
Definition STATES : list string :=
  ["AL";"AK";"AZ";"AR";"CA";"CO";"CT";"DE";"FL";"GA";"HI";"ID";"IL";"IN";"IA";
   "KS";"KY";"LA";"ME";"MD";"MA";"MI";"MN";"MS";"MO";"MT";"NE";"NV";"NH";"NJ";
   "NM";"NY";"NC";"ND";"OH";"OK";"OR";"PA";"RI";"SC";"SD";"TN";"TX";"UT";"VT";
   "VA";"WA";"WV";"WI";"WY";"DC"].

(** ** The factor tables *)

Local Open Scope float_scope.

Definition AGE_FACTOR (a : AgeRange) : float :=
  match a with
  | Age16_19 => 1.85
  | Age20_24 => 1.55
  | Age25_29 => 1.20
  | Age30_64 => 1.00
  | Age65_74 => 1.15
  | Age75plus => 1.35
  end.

(** [STATE_FACTOR] is read with an arbitrary string, so it is kept as the
    list of its own properties, in the order of the literal. *)
Definition STATE_FACTOR : list (string * float) :=
  [("MI", 1.45); ("LA", 1.40); ("FL", 1.35); ("NY", 1.30);
   ("CA", 1.25); ("NJ", 1.28); ("TX", 1.20); ("DEFAULT", 1.00)].

Definition VEHICLE_FACTOR (v : VehicleType) : float :=
  match v with
  | sedan => 1.00
  | suv => 1.10
  | truck => 1.08
  | sports => 1.45
  | luxury => 1.55
  | electric => 1.15
  end.

Definition COVERAGE_FACTOR (c : CoverageLevel) : float :=
  match c with
  | minimum => 0.65
  | standard => 1.00
  | full => 1.45
  end.

Definition HISTORY_FACTOR (h : DrivingHistory) : float :=
  match h with
  | clean => 0.85
  | minor => 1.00
  end.

(** The properties every object literal inherits from [Object.prototype]:
    eleven functions and the accessor [__proto__], which reads as the
    prototype object itself. *)
Definition OBJECT_PROTOTYPE : list string :=
  ["constructor"; "__defineGetter__"; "__defineSetter__"; "hasOwnProperty";
   "__lookupGetter__"; "__lookupSetter__"; "isPrototypeOf";
   "propertyIsEnumerable"; "toString"; "valueOf"; "__proto__";
   "toLocaleString"]%string.

Fixpoint own_property (k : string) (o : list (string * float)) : option float :=
  match o with
  | [] => None
  | (k', x) :: o' => if String.eqb k k' then Some x else own_property k o'
  end.

Definition inherited (k : string) : bool := existsb (String.eqb k) OBJECT_PROTOTYPE.

(** [o[k]] for an object literal [o] whose own properties are numbers. *)
Definition read_property (o : list (string * float)) (k : string) : jsval :=
  match own_property k o with
  | Some x => JNumber x
  | None => if inherited k then JObject k else JUndefined
  end.

(** ** [Math.max], [Math.min], [Math.round] *)

(** [Math.max(a, b)]: [NaN] when either is; [+0] is larger than [-0]. *)
Definition Math_max (a b : float) : float :=
  if is_nan a || is_nan b then nan
  else if a <? b then b
  else if b <? a then a
  else if get_sign a then b else a.

(** [Math.min(a, b)]: [NaN] when either is; [-0] is smaller than [+0]. *)
Definition Math_min (a b : float) : float :=
  if is_nan a || is_nan b then nan
  else if a <? b then a
  else if b <? a then b
  else if get_sign a then a else b.

(** The integer nearest to [(-1)^s * m * 2^e], the larger one at a tie:
    the floor of the value plus one half. *)
Definition round_half_up (s : bool) (m : positive) (e : Z) : Z :=
  let v := if s then Z.neg m else Z.pos m in
  match e with
  | Z.neg k => (2 * v + 2 ^ Z.pos k) / 2 ^ (Z.pos k + 1)
  | _ => v * 2 ^ e
  end.

(** An integer of magnitude below 2^63 as a number. *)
Definition of_Z (n : Z) : float :=
  match n with
  | Z0 => zero
  | Z.pos _ => of_uint63 (Uint63.of_Z n)
  | Z.neg _ => - of_uint63 (Uint63.of_Z (- n))
  end.

(** [Math.round(x)]: [NaN], the infinities and the zeros are returned as they
    are; a finite [x] gives the nearest integer, ties going up; a result of
    zero keeps the sign of [x] (so [Math.round(-0.2)] is [-0]).  A double with
    a non-negative exponent is an integer already. *)
Definition Math_round (x : float) : float :=
  match Prim2SF x with
  | S754_finite s m e =>
      if (0 <=? e)%Z then x
      else
        let n := round_half_up s m e in
        if (n =? 0)%Z then (if s then neg_zero else zero) else of_Z n
  | _ => x
  end.

(** The other common convention, ties away from zero: the magnitude is
    rounded half up and the sign put back.  It is not what [Math.round] does
    on negative ties and is here to be compared with it. *)
Definition round_half_away (s : bool) (m : positive) (e : Z) : Z :=
  match e with
  | Z.neg k =>
      let a := ((2 * Z.pos m + 2 ^ Z.pos k) / 2 ^ (Z.pos k + 1))%Z in
      if s then (- a)%Z else a
  | _ => ((if s then Z.neg m else Z.pos m) * 2 ^ e)%Z
  end.

Definition Math_round_away (x : float) : float :=
  match Prim2SF x with
  | S754_finite s m e =>
      if (0 <=? e)%Z then x
      else
        let n := round_half_away s m e in
        if (n =? 0)%Z then (if s then neg_zero else zero) else of_Z n
  | _ => x
  end.

(** [Number.isInteger(x)]: [x] is finite and has no fractional part. *)
Definition Number_isInteger (x : float) : bool :=
  match Prim2SF x with
  | S754_zero _ => true
  | S754_finite _ m e => ((0 <=? e) || (Z.pos m mod 2 ^ (- e) =? 0))%Z
  | _ => false
  end.

(** [x >= 0 && x < Infinity] *)
Definition nonneg_finite (x : float) : bool := (0 <=? x) && (x <? infinity).

(** ** The computation of [App] (lines 32 to 44) *)

Record Breakdown := {
  ageFactor : float;
  stateFactor : jsval;
  vehicleFactor : float;
  coverageFactor : float;
  historyFactor : float;
  riskAdjustment : float;
  baselineMultiplier : float;
  savingsMultiplier : float;
  estimatedNewPremium : float;
  monthlySavings : float;
  annualSavings : float
}.

(** Everything after the five table reads. *)
Definition compute (ageFactor : float) (stateFactor : jsval)
    (vehicleFactor coverageFactor historyFactor currentPremium : float) : Breakdown :=
  let riskAdjustment := ageFactor * ToNumber stateFactor * vehicleFactor * historyFactor in
  let baselineMultiplier := riskAdjustment * coverageFactor in
  let savingsMultiplier := Math_max 0.70 (Math_min 1.0 (1.0 / baselineMultiplier * 0.92)) in
  let estimatedNewPremium := Math_round (currentPremium * savingsMultiplier) in
  let monthlySavings := Math_max 0 (currentPremium - estimatedNewPremium) in
  let annualSavings := monthlySavings * 12 in
  {| ageFactor := ageFactor;
     stateFactor := stateFactor;
     vehicleFactor := vehicleFactor;
     coverageFactor := coverageFactor;
     historyFactor := historyFactor;
     riskAdjustment := riskAdjustment;
     baselineMultiplier := baselineMultiplier;
     savingsMultiplier := savingsMultiplier;
     estimatedNewPremium := estimatedNewPremium;
     monthlySavings := monthlySavings;
     annualSavings := annualSavings |}.

(** [STATE_FACTOR[values.state] || STATE_FACTOR.DEFAULT] *)
Definition resolve_state (s : string) : jsval :=
  js_or (read_property STATE_FACTOR s) (read_property STATE_FACTOR "DEFAULT").

Definition App (values : SavingsInput) : Breakdown :=
  compute (AGE_FACTOR values.(ageRange))
          (resolve_state values.(state))
          (VEHICLE_FACTOR values.(vehicleType))
          (COVERAGE_FACTOR values.(coverageLevel))
          (HISTORY_FACTOR values.(drivingHistory))
          values.(currentPremium).

(** [handleChange('currentPremium', parseInt(e.target.value) || 0)]: what
    the form stores for a parsed entry; a failed parse is [NaN]. *)
Definition entered_premium (parsed : float) : float :=
  ToNumber (js_or (JNumber parsed) (JNumber 0)).

(** ** Inputs used as examples *)

(** The initial state of the form (line 29). *)
Definition initial_values : SavingsInput :=
  {| ageRange := Age30_64; state := "CA"; vehicleType := sedan;
     coverageLevel := standard; drivingHistory := clean; currentPremium := 180 |}.

(** The same driver with liability-only coverage. *)
Definition initial_values_minimum : SavingsInput :=
  {| ageRange := Age30_64; state := "CA"; vehicleType := sedan;
     coverageLevel := minimum; drivingHistory := clean; currentPremium := 180 |}.

(** A state without an entry of its own in [STATE_FACTOR]. *)
Definition wyoming_values : SavingsInput :=
  {| ageRange := Age30_64; state := "WY"; vehicleType := sedan;
     coverageLevel := minimum; drivingHistory := clean; currentPremium := 100 |}.

(** The profile with the largest factors, where the multiplier sits on its
    floor, at a premium of [p]. *)
Definition high_risk_values (p : float) : SavingsInput :=
  {| ageRange := Age16_19; state := "MI"; vehicleType := sports;
     coverageLevel := full; drivingHistory := minor; currentPremium := p |}.

(** A state string that names an inherited property. *)
Definition constructor_values : SavingsInput :=
  {| ageRange := Age30_64; state := "constructor"; vehicleType := sedan;
     coverageLevel := standard; drivingHistory := clean; currentPremium := 180 |}.

(** Line 40 over the table entries: the savings multiplier as a function of
    the five factors' keys, once the state has resolved to the number [x]. *)
Definition multiplier (a : AgeRange) (x : float) (v : VehicleType)
    (c : CoverageLevel) (h : DrivingHistory) : float :=
  Math_max 0.70
    (Math_min 1.0
       (1.0 / (AGE_FACTOR a * x * VEHICLE_FACTOR v * HISTORY_FACTOR h * COVERAGE_FACTOR c) * 0.92)).

(** ** Exact values

    Every finite double is an integer multiple of [2^-1074], the smallest
    subnormal.  [scaled x] is that integer: the exact value of [x] in units
    of [2^-1074].  The infinities are given the magnitude [2^1024], one
    binade above the largest finite double, so that the order of the doubles
    is the order of their scaled values. *)

Local Open Scope Z_scope.

Definition scaled (x : spec_float) : Z :=
  match x with
  | S754_zero _ => 0
  | S754_finite s m e => (if s then -1 else 1) * (Z.pos m * 2 ^ (e + 1074))
  | S754_infinity s => (if s then -1 else 1) * 2 ^ 2098
  | S754_nan => 0
  end.

Definition exact (x : float) : Z := scaled (Prim2SF x).

(** Not [NaN] and not negative (a zero of either sign counts). *)
Definition nonneg (x : spec_float) : Prop :=
  match x with
  | S754_zero _ => True
  | S754_finite s _ _ => s = false
  | S754_infinity s => s = false
  | S754_nan => False
  end.

(** Finite and not negative. *)
Definition fin_nonneg (x : spec_float) : Prop :=
  match x with
  | S754_zero _ => True
  | S754_finite s _ _ => s = false
  | _ => False
  end.

(** The floor of [v + 1/2], for [v] counted in units of [2^-1074]. *)
Definition floor_half_up (X : Z) : Z := (2 * X + 2 ^ 1074) / 2 ^ 1075.

(** [rne X g]: [X / 2^g] rounded to the nearest integer, a tie going to the
    even neighbour. *)
Definition rne (X g : Z) : Z :=
  let q := X / 2 ^ g in
  match 2 * (X mod 2 ^ g) ?= 2 ^ g with
  | Lt => q
  | Eq => if Z.even q then q else q + 1
  | Gt => q + 1
  end.

(** For a value [X] counted in units of [2^-(1074+b)], the exponent (in the
    same units) of the last place of a 53-bit significand; it is never below
    [b], where the subnormals sit. *)
Definition cexp (b X : Z) : Z := Z.max (Z.log2 X - 52) b.

(** Round-to-nearest-even into binary64 of a value [X] counted in units of
    [2^-(1074+b)]; the result is counted in units of [2^-1074]. *)
Definition RN (b X : Z) : Z := 2 ^ (cexp b X - b) * rne X (cexp b X).

(** Not [NaN]. *)
Definition not_nan (x : spec_float) : Prop :=
  match x with S754_nan => False | _ => True end.

(** A zero, or below zero. *)
Definition nonpos (x : spec_float) : Prop :=
  match x with
  | S754_zero _ => True
  | S754_finite s _ _ => s = true
  | S754_infinity s => s = true
  | S754_nan => False
  end.

(** ** The tables as the object literals they are (lines 14 to 24)

    The five selections are strings when the page runs.  The tables are
    listed here with their keys, to be compared with the functions on the
    union types above. *)

Definition AGE_FACTOR_object : list (string * float) :=
  [("16-19", 1.85); ("20-24", 1.55); ("25-29", 1.20); ("30-64", 1.00);
   ("65-74", 1.15); ("75+", 1.35)]%float.

Definition VEHICLE_FACTOR_object : list (string * float) :=
  [("sedan", 1.00); ("suv", 1.10); ("truck", 1.08); ("sports", 1.45);
   ("luxury", 1.55); ("electric", 1.15)]%float.

Definition COVERAGE_FACTOR_object : list (string * float) :=
  [("minimum", 0.65); ("standard", 1.00); ("full", 1.45)]%float.

Definition HISTORY_FACTOR_object : list (string * float) :=
  [("clean", 0.85); ("minor", 1.00)]%float.

Definition SAVINGS_TIPS : list (string * list string) :=
  [("minimum", ["Lower premium with basic coverage"; "State-required liability only";
                "Best for older vehicles"; "Higher out-of-pocket risk"]);
   ("standard", ["Balanced protection and cost"; "Collision coverage included";
                 "Uninsured motorist protection"; "Good for most drivers"]);
   ("full", ["Maximum coverage protection"; "Comprehensive + collision";
             "Lower deductibles available"; "Best for newer vehicles"])].

(** [SAVINGS_TIPS[k].map(...)] (line 141): the items of the list under [k],
    or [None] when the read does not give an array ([undefined], or a
    property inherited from [Object.prototype], none of which has a [map])
    and the call throws. *)
Fixpoint tips (k : string) (o : list (string * list string)) : option (list string) :=
  match o with
  | [] => None
  | (k', t) :: o' => if String.eqb k k' then Some t else tips k o'
  end.

(** The [value] attributes of the options of the four selects written out
    in the page (lines 66 to 71, 85 to 90, 96 to 97, 105 to 107); the state
    select has the entries of [STATES]. *)
Definition ageRange_options : list string :=
  ["16-19"; "20-24"; "25-29"; "30-64"; "65-74"; "75+"].

Definition vehicleType_options : list string :=
  ["sedan"; "suv"; "truck"; "sports"; "luxury"; "electric"].

Definition drivingHistory_options : list string := ["clean"; "minor"].

Definition coverageLevel_options : list string := ["minimum"; "standard"; "full"].

(** The string literal of each member of the union types (lines 4 to 8). *)
Definition AgeRange_literal (a : AgeRange) : string :=
  match a with
  | Age16_19 => "16-19"
  | Age20_24 => "20-24"
  | Age25_29 => "25-29"
  | Age30_64 => "30-64"
  | Age65_74 => "65-74"
  | Age75plus => "75+"
  end.

Definition VehicleType_literal (v : VehicleType) : string :=
  match v with
  | sedan => "sedan"
  | suv => "suv"
  | truck => "truck"
  | sports => "sports"
  | luxury => "luxury"
  | electric => "electric"
  end.

Definition CoverageLevel_literal (c : CoverageLevel) : string :=
  match c with
  | minimum => "minimum"
  | standard => "standard"
  | full => "full"
  end.

Definition DrivingHistory_literal (h : DrivingHistory) : string :=
  match h with
  | clean => "clean"
  | minor => "minor"
  end.

(** The computation on the strings the page holds: the five table reads of
    lines 32 to 36 and the chain after them.  A read that gives [undefined]
    or a function enters the products as [NaN] ([ToNumber]). *)
Definition App_strings (age st vehicle coverage history : string) (premium : float)
    : Breakdown :=
  compute (ToNumber (read_property AGE_FACTOR_object age))
          (resolve_state st)
          (ToNumber (read_property VEHICLE_FACTOR_object vehicle))
          (ToNumber (read_property COVERAGE_FACTOR_object coverage))
          (ToNumber (read_property HISTORY_FACTOR_object history))
          premium.

(** ** The form (lines 29, 30 and 65 to 112) *)

(** A call [handleChange(field, value)]: the field named and the value
    given, as at the six places that call it. *)
Inductive Change :=
| Change_ageRange (value : AgeRange)
| Change_state (value : string)
| Change_vehicleType (value : VehicleType)
| Change_coverageLevel (value : CoverageLevel)
| Change_drivingHistory (value : DrivingHistory)
| Change_currentPremium (value : float).

(** [prev => ({ ...prev, [field]: value })] *)
Definition handleChange (c : Change) (prev : SavingsInput) : SavingsInput :=
  match c with
  | Change_ageRange value =>
      {| ageRange := value; state := prev.(state); vehicleType := prev.(vehicleType);
         coverageLevel := prev.(coverageLevel); drivingHistory := prev.(drivingHistory);
         currentPremium := prev.(currentPremium) |}
  | Change_state value =>
      {| ageRange := prev.(ageRange); state := value; vehicleType := prev.(vehicleType);
         coverageLevel := prev.(coverageLevel); drivingHistory := prev.(drivingHistory);
         currentPremium := prev.(currentPremium) |}
  | Change_vehicleType value =>
      {| ageRange := prev.(ageRange); state := prev.(state); vehicleType := value;
         coverageLevel := prev.(coverageLevel); drivingHistory := prev.(drivingHistory);
         currentPremium := prev.(currentPremium) |}
  | Change_coverageLevel value =>
      {| ageRange := prev.(ageRange); state := prev.(state); vehicleType := prev.(vehicleType);
         coverageLevel := value; drivingHistory := prev.(drivingHistory);
         currentPremium := prev.(currentPremium) |}
  | Change_drivingHistory value =>
      {| ageRange := prev.(ageRange); state := prev.(state); vehicleType := prev.(vehicleType);
         coverageLevel := prev.(coverageLevel); drivingHistory := value;
         currentPremium := prev.(currentPremium) |}
  | Change_currentPremium value =>
      {| ageRange := prev.(ageRange); state := prev.(state); vehicleType := prev.(vehicleType);
         coverageLevel := prev.(coverageLevel); drivingHistory := prev.(drivingHistory);
         currentPremium := value |}
  end.

(** What the user does: picks an option of one of the five selects, or types
    into the premium box, [parsed] being [parseInt(e.target.value)] ([NaN]
    for an empty or unparsable entry). *)
Inductive Event :=
| Select_ageRange (value : AgeRange)
| Select_state (value : string)
| Select_vehicleType (value : VehicleType)
| Select_drivingHistory (value : DrivingHistory)
| Select_coverageLevel (value : CoverageLevel)
| Input_currentPremium (parsed : float).

(** The [onChange] handlers (lines 65, 76, 84, 95, 104 and 112). *)
Definition onChange (e : Event) : Change :=
  match e with
  | Select_ageRange value => Change_ageRange value
  | Select_state value => Change_state value
  | Select_vehicleType value => Change_vehicleType value
  | Select_drivingHistory value => Change_drivingHistory value
  | Select_coverageLevel value => Change_coverageLevel value
  | Input_currentPremium parsed => Change_currentPremium (entered_premium parsed)
  end.

(** The state select offers the entries of [STATES] (line 77); the other
    selects offer every member of their type. *)
Definition offered (e : Event) : bool :=
  match e with
  | Select_state value => existsb (String.eqb value) STATES
  | _ => true
  end.

(** The state of the form after a sequence of events, from the initial
    state of line 29. *)
Definition after (events : list Event) : SavingsInput :=
  fold_left (fun values e => handleChange (onChange e) values) events initial_values.

(** What every state of the form satisfies. *)
Definition form_invariant (values : SavingsInput) : Prop :=
  In (state values) STATES /\ is_nan (currentPremium values) = false.

(** The [value] of the premium box, [values.currentPremium || '']: the
    number, or the empty string. *)
Inductive BoxValue :=
| BoxNumber (x : float)
| BoxEmpty.

Definition premium_box (premium : float) : BoxValue :=
  if ToBoolean (JNumber premium) then BoxNumber premium else BoxEmpty.

(** The value last given to each field by a sequence of calls, [d] when
    there is none. *)
Fixpoint last_ageRange (cs : list Change) (d : AgeRange) : AgeRange :=
  match cs with
  | [] => d
  | Change_ageRange v :: cs' => last_ageRange cs' v
  | _ :: cs' => last_ageRange cs' d
  end.

Fixpoint last_state (cs : list Change) (d : string) : string :=
  match cs with
  | [] => d
  | Change_state v :: cs' => last_state cs' v
  | _ :: cs' => last_state cs' d
  end.

Fixpoint last_vehicleType (cs : list Change) (d : VehicleType) : VehicleType :=
  match cs with
  | [] => d
  | Change_vehicleType v :: cs' => last_vehicleType cs' v
  | _ :: cs' => last_vehicleType cs' d
  end.

Fixpoint last_coverageLevel (cs : list Change) (d : CoverageLevel) : CoverageLevel :=
  match cs with
  | [] => d
  | Change_coverageLevel v :: cs' => last_coverageLevel cs' v
  | _ :: cs' => last_coverageLevel cs' d
  end.

Fixpoint last_drivingHistory (cs : list Change) (d : DrivingHistory) : DrivingHistory :=
  match cs with
  | [] => d
  | Change_drivingHistory v :: cs' => last_drivingHistory cs' v
  | _ :: cs' => last_drivingHistory cs' d
  end.

Fixpoint last_currentPremium (cs : list Change) (d : float) : float :=
  match cs with
  | [] => d
  | Change_currentPremium v :: cs' => last_currentPremium cs' v
  | _ :: cs' => last_currentPremium cs' d
  end.

(** ** Checks over the whole tables *)

(** The members of the four union types, in the order of the interface. *)
Definition ageRanges : list AgeRange :=
  [Age16_19; Age20_24; Age25_29; Age30_64; Age65_74; Age75plus].

Definition vehicleTypes : list VehicleType := [sedan; suv; truck; sports; luxury; electric].

Definition coverageLevels : list CoverageLevel := [minimum; standard; full].

Definition drivingHistories : list DrivingHistory := [clean; minor].

(** [f a x v c h] for every member of the four types and every entry [x] of
    [STATE_FACTOR]. *)
Definition every_profile
    (f : AgeRange -> float -> VehicleType -> CoverageLevel -> DrivingHistory -> bool) : bool :=
  forallb (fun a => forallb (fun x => forallb (fun v => forallb (fun c =>
    forallb (fun h => f a x v c h) drivingHistories) coverageLevels) vehicleTypes)
    (map snd STATE_FACTOR)) ageRanges.

(** Replacing one factor of a profile by one that is not smaller gives a
    multiplier that is not larger: one check for each of the five factors. *)
Definition age_step : bool :=
  every_profile (fun a x v c h => forallb (fun a' =>
    implb (AGE_FACTOR a <=? AGE_FACTOR a')%float
          (multiplier a' x v c h <=? multiplier a x v c h)%float) ageRanges).

Definition state_step : bool :=
  every_profile (fun a x v c h => forallb (fun x' =>
    implb (x <=? x')%float
          (multiplier a x' v c h <=? multiplier a x v c h)%float) (map snd STATE_FACTOR)).

Definition vehicle_step : bool :=
  every_profile (fun a x v c h => forallb (fun v' =>
    implb (VEHICLE_FACTOR v <=? VEHICLE_FACTOR v')%float
          (multiplier a x v' c h <=? multiplier a x v c h)%float) vehicleTypes).

Definition coverage_step : bool :=
  every_profile (fun a x v c h => forallb (fun c' =>
    implb (COVERAGE_FACTOR c <=? COVERAGE_FACTOR c')%float
          (multiplier a x v c' h <=? multiplier a x v c h)%float) coverageLevels).

Definition history_step : bool :=
  every_profile (fun a x v c h => forallb (fun h' =>
    implb (HISTORY_FACTOR h <=? HISTORY_FACTOR h')%float
          (multiplier a x v c h' <=? multiplier a x v c h)%float) drivingHistories).

(** * Rounding to nearest even, on integers

    [rne], [cexp] and [RN] are plain integer arithmetic.  What the proofs
    below need of them: rounding keeps the order ([RN_mono]) and leaves a
    representable value where it is ([RN_exact]). *)

(** The two large constants are kept abstract where only the order matters,
    so that the arithmetic procedures do not expand them. *)
Ltac hide_big :=
  let T := fresh "T" in
  let U := fresh "U" in
  set (T := 2 ^ 2098) in *; set (U := 2 ^ 1074) in *; clearbody T U.

Lemma pow2_pos (g : Z) : 0 <= g -> 0 < 2 ^ g.
Proof. intros; apply Z.pow_pos_nonneg; lia. Qed.

Lemma pow2_le a b : a <= b -> 2 ^ a <= 2 ^ b.
Proof.
  intros H. destruct (Z_lt_le_dec a 0).
  - rewrite (Z.pow_neg_r 2 a) by lia. apply Z.pow_nonneg; lia.
  - apply Z.pow_le_mono_r; lia.
Qed.

Lemma pow2_lt a b : 0 <= b -> a < b -> 2 ^ a < 2 ^ b.
Proof.
  intros Hb H. destruct (Z_lt_le_dec a 0).
  - rewrite (Z.pow_neg_r 2 a) by lia. apply pow2_pos; lia.
  - apply Z.pow_lt_mono_r; lia.
Qed.

Lemma rne_bounds X g : 0 <= g -> X / 2 ^ g <= rne X g <= X / 2 ^ g + 1.
Proof.
  intros Hg. unfold rne.
  destruct (2 * (X mod 2 ^ g) ?= 2 ^ g); [destruct (Z.even _)| |]; lia.
Qed.

Lemma rne_nonneg X g : 0 <= g -> 0 <= X -> 0 <= rne X g.
Proof.
  intros Hg HX. pose proof (rne_bounds X g Hg).
  pose proof (Z.div_pos X (2 ^ g) HX (pow2_pos g Hg)). lia.
Qed.

Lemma rne_mono X Y g : 0 <= g -> X <= Y -> rne X g <= rne Y g.
Proof.
  intros Hg HXY.
  pose proof (pow2_pos g Hg) as Hp.
  pose proof (Z.div_le_mono X Y (2 ^ g) Hp HXY) as Hq.
  destruct (Z.eq_dec (X / 2 ^ g) (Y / 2 ^ g)) as [E|NE].
  - pose proof (Z.div_mod X (2 ^ g) ltac:(lia)) as HX.
    pose proof (Z.div_mod Y (2 ^ g) ltac:(lia)) as HY.
    assert (Hr : X mod 2 ^ g <= Y mod 2 ^ g) by (rewrite E in HX; lia).
    unfold rne. rewrite E.
    destruct (Z.compare_spec (2 * (X mod 2 ^ g)) (2 ^ g));
      destruct (Z.compare_spec (2 * (Y mod 2 ^ g)) (2 ^ g));
      destruct (Z.even (Y / 2 ^ g)); lia.
  - pose proof (rne_bounds X g Hg). pose proof (rne_bounds Y g Hg). lia.
Qed.

Lemma rne_0 M : rne M 0 = M.
Proof.
  unfold rne. rewrite Z.pow_0_r, Z.mod_1_r, Z.div_1_r. reflexivity.
Qed.

Lemma rne_exact N g : 0 <= g -> rne (N * 2 ^ g) g = N.
Proof.
  intros Hg. pose proof (pow2_pos g Hg) as Hp. unfold rne.
  rewrite Z.mod_mul, Z.div_mul by lia.
  destruct (Z.compare_spec (2 * 0) (2 ^ g)); lia.
Qed.

(** Rounding does not depend on the unit the value is counted in. *)
Lemma rne_scale M k a : 0 <= k -> 0 <= a -> rne (M * 2 ^ a) (k + a) = rne M k.
Proof.
  intros Hk Ha. unfold rne.
  pose proof (pow2_pos k Hk) as Hpk. pose proof (pow2_pos a Ha) as Hpa.
  rewrite Z.pow_add_r by lia.
  rewrite Z.div_mul_cancel_r, Z.mul_mod_distr_r by lia.
  destruct (Z.compare_spec (2 * (M mod 2 ^ k * 2 ^ a)) (2 ^ k * 2 ^ a));
    destruct (Z.compare_spec (2 * (M mod 2 ^ k)) (2 ^ k)); try reflexivity; nia.
Qed.

Lemma cexp_ge b X : b <= cexp b X.
Proof. unfold cexp; lia. Qed.

Lemma cexp_mono b X Y : 0 <= X <= Y -> cexp b X <= cexp b Y.
Proof.
  intros H. unfold cexp. pose proof (Z.log2_le_mono X Y ltac:(lia)). lia.
Qed.

Lemma RN_nonneg b X : 0 <= b -> 0 <= X -> 0 <= RN b X.
Proof.
  intros Hb HX. unfold RN. pose proof (cexp_ge b X).
  apply Z.mul_nonneg_nonneg.
  - apply Z.pow_nonneg; lia.
  - apply rne_nonneg; lia.
Qed.

Lemma RN_zero b : 0 <= b -> RN b 0 = 0.
Proof.
  intros Hb. unfold RN, cexp. simpl Z.log2.
  replace (Z.max (0 - 52) b) with b by lia.
  unfold rne. rewrite Z.mod_0_l, Z.div_0_l by (pose proof (pow2_pos b Hb); lia).
  destruct (Z.compare_spec (2 * 0) (2 ^ b)); try (pose proof (pow2_pos b Hb); lia).
Qed.

(** Rounding keeps the order.  Within one binade it is the order of the
    rounded quotients; across binades the power of two between the two
    values is representable in both and separates the results. *)
Lemma RN_mono b X Y : 0 <= b -> 0 <= X <= Y -> RN b X <= RN b Y.
Proof.
  intros Hb [HX HXY].
  destruct (Z.eq_dec X 0) as [->|NX].
  { rewrite RN_zero by lia. apply RN_nonneg; lia. }
  pose proof (cexp_mono b X Y ltac:(lia)) as Hc.
  pose proof (cexp_ge b X) as HcX.
  destruct (Z.eq_dec (cexp b X) (cexp b Y)) as [E|NE].
  - unfold RN. rewrite E.
    apply Z.mul_le_mono_nonneg_l.
    + apply Z.pow_nonneg; lia.
    + apply rne_mono; lia.
  - set (L := Z.log2 Y).
    assert (HgY : cexp b Y = L - 52) by (unfold cexp in *; lia).
    assert (HLX : Z.log2 X < L) by (unfold cexp in *; lia).
    assert (HXL : X < 2 ^ L) by (apply Z.log2_lt_pow2; lia).
    assert (HYL : 2 ^ L <= Y) by (apply Z.log2_spec; lia).
    assert (HLg : cexp b X <= L) by lia.
    transitivity (2 ^ (L - b)).
    + unfold RN.
      replace (2 ^ (L - b)) with (2 ^ (cexp b X - b) * 2 ^ (L - cexp b X))
        by (rewrite <- Z.pow_add_r by lia; f_equal; lia).
      apply Z.mul_le_mono_nonneg_l; [apply Z.pow_nonneg; lia|].
      rewrite <- (rne_exact (2 ^ (L - cexp b X)) (cexp b X)) by lia.
      apply rne_mono; [lia|].
      rewrite <- Z.pow_add_r by lia. replace (L - cexp b X + cexp b X) with L by lia. lia.
    + unfold RN. rewrite HgY.
      replace (2 ^ (L - b)) with (2 ^ (L - 52 - b) * 2 ^ 52)
        by (rewrite <- Z.pow_add_r by lia; f_equal; lia).
      apply Z.mul_le_mono_nonneg_l; [apply Z.pow_nonneg; lia|].
      rewrite <- (rne_exact (2 ^ 52) (L - 52)) by lia.
      apply rne_mono; [lia|].
      rewrite <- Z.pow_add_r by lia. replace (52 + (L - 52)) with L by lia. lia.
Qed.

(** A multiple of its own last place is left as it is. *)
Lemma RN_exact b X N : 0 <= b -> X = N * 2 ^ cexp b X -> RN b X * 2 ^ b = X.
Proof.
  intros Hb HX. unfold RN. pose proof (cexp_ge b X) as Hc.
  remember (cexp b X) as c eqn:Ec. clear Ec.
  rewrite HX. rewrite rne_exact by lia.
  replace (2 ^ c) with (2 ^ (c - b) * 2 ^ b)
    by (rewrite <- Z.pow_add_r by lia; f_equal; lia).
  ring.
Qed.

(** * The operations of [SpecFloat] on exact values

    The primitive operations are specified by the functions of [SpecFloat]
    ([mul_spec], [sub_spec] and so on), which compute on sign, mantissa and
    exponent: they shift the mantissa right bit by bit, keeping a round and a
    sticky bit, and decide the rounding from those.  This part shows that on
    non-negative operands the result, as an exact value, is [RN] of the
    exact result. *)

Lemma fexp_eq x : fexp prec emax x = Z.max (x - 53) (-1074).
Proof. reflexivity. Qed.

Lemma digits2_size p : digits2_pos p = Pos.size p.
Proof. induction p; simpl; congruence. Qed.

Lemma Zdigits2_log2 p : Zdigits2 (Z.pos p) = Z.log2 (Z.pos p) + 1.
Proof.
  simpl Zdigits2. rewrite digits2_size.
  destruct p; simpl; lia.
Qed.

Lemma Zdigits2_bounds M : 0 < M -> 2 ^ (Zdigits2 M - 1) <= M < 2 ^ Zdigits2 M.
Proof.
  intros HM. destruct M as [|p|p]; try lia.
  rewrite Zdigits2_log2.
  replace (Z.log2 (Z.pos p) + 1 - 1) with (Z.log2 (Z.pos p)) by lia.
  apply Z.log2_spec. lia.
Qed.

Lemma iter_pos_nat {A} (f : A -> A) p x :
  iter_pos f p x = Nat.iter (Pos.to_nat p) f x.
Proof.
  revert x. induction p as [p IH|p IH|]; intros x; simpl iter_pos.
  - rewrite !IH, Pos2Nat.inj_xI.
    rewrite <- Nat.iter_add, Nat.iter_succ_r. f_equal. lia.
  - rewrite !IH, Pos2Nat.inj_xO.
    rewrite <- Nat.iter_add. f_equal. lia.
  - reflexivity.
Qed.

(** One step of the shift: halve, remember the bit that fell off, and
    accumulate the earlier ones in the sticky bit. *)
Lemma shr_1_nonneg m r s :
  0 <= m -> shr_1 (Build_shr_record m r s) = Build_shr_record (m / 2) (Z.odd m) (r || s).
Proof.
  intros Hm. rewrite <- Z.div2_div.
  destruct m as [|[p|p|]|p]; try reflexivity; lia.
Qed.

(** After [n + 1] steps from an exact mantissa: the quotient by [2^(n+1)],
    the last bit shifted out, and whether anything below it was set. *)
Lemma shr_iter M (n : nat) :
  0 <= M ->
  Nat.iter (S n) shr_1 (Build_shr_record M false false) =
  Build_shr_record (M / 2 ^ (Z.of_nat n + 1)) (Z.odd (M / 2 ^ Z.of_nat n))
                   (negb (M mod 2 ^ Z.of_nat n =? 0)).
Proof.
  intros HM. induction n as [|n IH].
  - cbv [Nat.iter nat_rect]. rewrite shr_1_nonneg by lia.
    simpl Z.of_nat. rewrite Z.pow_0_r, Z.div_1_r, Z.mod_1_r. reflexivity.
  - rewrite Nat.iter_succ, IH. clear IH.
    rewrite Nat2Z.inj_succ. unfold Z.succ.
    assert (Hk : 0 <= Z.of_nat n) by lia.
    revert Hk. generalize (Z.of_nat n). clear n. intros k Hk.
    assert (Hp : 0 < 2 ^ k) by (apply pow2_pos; lia).
    assert (Hp1 : 2 ^ (k + 1) = 2 ^ k * 2) by (rewrite Z.pow_add_r by lia; reflexivity).
    rewrite shr_1_nonneg by (apply Z.div_pos; [lia | apply pow2_pos; lia]).
    f_equal.
    + rewrite Z.div_div by lia. rewrite (Z.pow_add_r 2 (k + 1) 1) by lia. reflexivity.
    + rewrite Hp1, Z.rem_mul_r by lia.
      rewrite Zmod_odd.
      pose proof (Z.mod_pos_bound M (2 ^ k) Hp).
      destruct (Z.odd (M / 2 ^ k)); simpl.
      * symmetry. apply negb_true_iff. apply Z.eqb_neq. lia.
      * f_equal. f_equal. lia.
Qed.

(** Round and sticky bit decide as the comparison of the remainder with one
    half does. *)
Lemma shr_iter_rne M (n : nat) :
  0 <= M ->
  let mrs := Nat.iter (S n) shr_1 (Build_shr_record M false false) in
  round_nearest_even (shr_m mrs) (loc_of_shr_record mrs) = rne M (Z.of_nat n + 1).
Proof.
  intros HM mrs. unfold mrs. rewrite shr_iter by assumption.
  assert (Hp : 0 < 2 ^ Z.of_nat n) by (apply pow2_pos; lia).
  unfold rne. rewrite (Z.pow_add_r 2 (Z.of_nat n) 1), Z.pow_1_r by lia.
  rewrite (Z.rem_mul_r M (2 ^ Z.of_nat n) 2) by lia.
  rewrite Zmod_odd.
  pose proof (Z.mod_pos_bound M (2 ^ Z.of_nat n) Hp).
  destruct (Z.odd (M / 2 ^ Z.of_nat n)); destruct (Z.eqb_spec (M mod 2 ^ Z.of_nat n) 0);
    cbv [shr_m loc_of_shr_record round_nearest_even negb];
    match goal with |- context [?a ?= ?b] => destruct (Z.compare_spec a b) end;
    try reflexivity; lia.
Qed.

Lemma shr_start M E n :
  0 <= M ->
  round_nearest_even (shr_m (fst (shr (Build_shr_record M false false) E n)))
                     (loc_of_shr_record (fst (shr (Build_shr_record M false false) E n)))
    = rne M (Z.max n 0)
  /\ shr_m (fst (shr (Build_shr_record M false false) E n)) = M / 2 ^ Z.max n 0
  /\ snd (shr (Build_shr_record M false false) E n) = E + Z.max n 0.
Proof.
  intros HM. destruct n as [|p|p]; cbn [shr fst snd].
  - cbn [Z.max Z.compare]. rewrite rne_0, Z.pow_0_r, Z.div_1_r. cbn. split; [|split]; try reflexivity; lia.
  - rewrite iter_pos_nat.
    destruct (Pos2Nat.is_succ p) as [n Hn]. rewrite Hn.
    assert (Hz : Z.max (Z.pos p) 0 = Z.of_nat n + 1) by lia.
    rewrite Hz. split; [|split].
    + apply shr_iter_rne; assumption.
    + rewrite shr_iter by assumption. reflexivity.
    + lia.
  - replace (Z.max (Z.neg p) 0) with 0 by lia.
    rewrite rne_0, Z.pow_0_r, Z.div_1_r. cbn. split; [|split]; try reflexivity; lia.
Qed.

Lemma Zdigits2_le M d : 0 <= d -> 0 <= M < 2 ^ d -> Zdigits2 M <= d.
Proof.
  intros Hd [H0 HM]. destruct (Z.eq_dec M 0) as [->|NZ]; [simpl; lia|].
  pose proof (Zdigits2_bounds M ltac:(lia)) as [Hlo _].
  destruct (Z_le_gt_dec (Zdigits2 M) d); [assumption|].
  pose proof (pow2_le d (Zdigits2 M - 1) ltac:(lia)). lia.
Qed.

(** The rounded mantissa never exceeds [2 ^ 53]. *)
Lemma rne_top M k : 0 <= k -> 0 <= M < 2 ^ (53 + k) -> rne M k <= 2 ^ 53.
Proof.
  intros Hk HM. rewrite <- (rne_exact (2 ^ 53) k) by lia.
  apply rne_mono; [lia|]. rewrite <- Z.pow_add_r by lia. lia.
Qed.

Lemma rne_low M k j : 0 <= k -> 0 <= j -> 2 ^ (j + k) <= M -> 2 ^ j <= rne M k.
Proof.
  intros Hk Hj HM. rewrite <- (rne_exact (2 ^ j) k) by lia.
  apply rne_mono; [lia|]. rewrite <- Z.pow_add_r by lia. lia.
Qed.

(** [binary_round_aux] on a mantissa that sits at or below its final
    exponent: round the mantissa at that exponent, renormalise when the
    rounding carried into a power of two, overflow to infinity. *)
Theorem binary_round_aux_sem M E :
  0 < M ->
  let e' := fexp prec emax (Zdigits2 M + E) in
  E <= e' ->
  let x := binary_round_aux prec emax false M E loc_Exact in
  nonneg x /\ scaled x = Z.min (rne M (e' - E) * 2 ^ (e' + 1074)) (2 ^ 2098).
Proof.
  intros HM e' HE x.
  assert (He' : e' = Z.max (Zdigits2 M + E - 53) (-1074)) by reflexivity.
  pose proof (Zdigits2_bounds M HM) as [Hlo Hhi].
  set (k := e' - E) in *.
  assert (Hk : 0 <= k) by lia.
  set (q := rne M k).
  assert (Hq0 : 0 <= q) by (apply rne_nonneg; lia).
  assert (Hq53 : q <= 2 ^ 53).
  { apply rne_top; [lia|]. split; [lia|].
    pose proof (pow2_le (Zdigits2 M) (53 + k) ltac:(lia)). lia. }
  assert (Hqlow : -1074 < e' -> 2 ^ 52 <= q).
  { intros Hn. apply rne_low; [lia|lia|].
    replace (52 + k) with (Zdigits2 M - 1) by lia. exact Hlo. }
  (* first shift *)
  unfold x, binary_round_aux, shr_fexp. cbn [shr_record_of_loc].
  fold e'. fold k.
  pose proof (shr_start M E k ltac:(lia)) as (H1 & _ & H2).
  rewrite Z.max_l in H1, H2 by lia. fold q in H1.
  destruct (shr (Build_shr_record M false false) E k) as [mrs1 e1] eqn:S1.
  cbn [fst snd] in H1, H2. rewrite H1. replace e1 with e' by lia.
  (* second shift *)
  set (n2 := fexp prec emax (Zdigits2 q + e') - e').
  assert (Hn2 : n2 = Z.max (Zdigits2 q + e' - 53) (-1074) - e') by reflexivity.
  pose proof (shr_start q e' n2 Hq0) as (_ & H3 & H4).
  destruct (shr (Build_shr_record q false false) e' n2) as [mrs2 e2] eqn:S2.
  cbn [fst snd] in H3, H4. rewrite H3.
  assert (P53 : 2 ^ 53 = 9007199254740992) by reflexivity.
  assert (P52 : 2 ^ 52 = 4503599627370496) by reflexivity.
  destruct (Z.eq_dec q (2 ^ 53)) as [Eq53|Nq53].
  - (* the mantissa was rounded up to a power of two *)
    assert (Hd : Zdigits2 q = 54) by (rewrite Eq53; reflexivity).
    assert (Hn21 : Z.max n2 0 = 1) by lia.
    rewrite Hn21 in *. rewrite Eq53.
    change (2 ^ 53 / 2 ^ 1) with (Z.pos 4503599627370496).
    cbv iota beta.
    assert (Hsplit : 2 ^ 53 * 2 ^ (e' + 1074) = 2 ^ 52 * 2 ^ (e' + 1 + 1074)).
    { replace (e' + 1 + 1074) with (1 + (e' + 1074)) by lia.
      rewrite (Z.pow_add_r 2 1) by lia. rewrite P53, P52. lia. }
    destruct (Z.leb_spec e2 (emax - prec)) as [Hle|Hgt]; change (emax - prec) with 971 in *.
    + split; [reflexivity|]. cbn [scaled]. rewrite Hsplit.
      replace e2 with (e' + 1) by lia. change (Z.pos 4503599627370496) with (2 ^ 52).
      rewrite Z.min_l; [lia|].
      rewrite <- Z.pow_add_r by lia. apply pow2_le. lia.
    + split; [reflexivity|]. cbn [scaled]. rewrite Hsplit.
      rewrite Z.min_r; [apply Z.mul_1_l|].
      rewrite <- Z.pow_add_r by lia. apply pow2_le. lia.
  - assert (Hd : Zdigits2 q <= 53) by (apply Zdigits2_le; lia).
    assert (Hn20 : Z.max n2 0 = 0) by lia.
    rewrite Hn20 in *. rewrite Z.pow_0_r, Z.div_1_r.
    destruct q as [|qp|qp] eqn:Eq; [| |lia].
    + split; [exact I|]. cbn [scaled]. rewrite Z.mul_0_l.
      rewrite Z.min_l; [reflexivity|]. apply Z.pow_nonneg; lia.
    + destruct (Z.leb_spec e2 (emax - prec)) as [Hle|Hgt]; change (emax - prec) with 971 in *.
      * split; [reflexivity|]. cbn [scaled]. replace e2 with e' by lia.
        rewrite Z.min_l; [lia|].
        transitivity (2 ^ 53 * 2 ^ (e' + 1074)).
        { apply Z.mul_le_mono_nonneg_r; [apply Z.pow_nonneg; lia | lia]. }
        rewrite <- Z.pow_add_r by lia. apply pow2_le. lia.
      * split; [reflexivity|]. cbn [scaled].
        rewrite Z.min_r; [apply Z.mul_1_l|].
        transitivity (2 ^ 52 * 2 ^ (e' + 1074)).
        { rewrite <- Z.pow_add_r by lia. apply pow2_le. lia. }
        apply Z.mul_le_mono_nonneg_r; [apply Z.pow_nonneg; lia | lia].
Qed.

Lemma iter_xO m d : Z.pos (Pos.iter xO m d) = Z.pos m * 2 ^ Z.pos d.
Proof.
  rewrite Pos2Nat.inj_iter.
  rewrite <- (positive_nat_Z d).
  induction (Pos.to_nat d) as [|n IH].
  - simpl. lia.
  - rewrite Nat2Z.inj_succ, Z.pow_succ_r by lia.
    cbn [nat_rect]. rewrite Pos2Z.inj_xO, IH. ring.
Qed.

Lemma shl_align_spec mx ex ex' :
  Z.pos (fst (shl_align mx ex ex')) = Z.pos mx * 2 ^ (ex - Z.min ex ex')
  /\ snd (shl_align mx ex ex') = Z.min ex ex'.
Proof.
  unfold shl_align. destruct (ex' - ex) as [|d|d] eqn:Hd; cbn [fst snd].
  - replace (Z.min ex ex') with ex by lia. rewrite Z.sub_diag, Z.pow_0_r. lia.
  - replace (Z.min ex ex') with ex by lia. rewrite Z.sub_diag, Z.pow_0_r. lia.
  - replace (Z.min ex ex') with ex' by lia. rewrite iter_xO.
    split; [|reflexivity]. f_equal. f_equal. lia.
Qed.

Lemma Zdigits2_mul_pow2 M j : 0 < M -> 0 <= j -> Zdigits2 (M * 2 ^ j) = Zdigits2 M + j.
Proof.
  intros HM Hj.
  assert (Hp : 0 < M * 2 ^ j) by (apply Z.mul_pos_pos; [lia | apply pow2_pos; lia]).
  destruct M as [|m|m]; try lia.
  destruct (Z.pos m * 2 ^ j) as [|p|p] eqn:Ep; try lia.
  rewrite !Zdigits2_log2, <- Ep, Z.log2_mul_pow2 by lia. lia.
Qed.

Lemma cexp_scaled b M a :
  0 < M -> 0 <= a ->
  cexp b (M * 2 ^ a) = Z.max (Zdigits2 M + a - 53) b.
Proof.
  intros HM Ha. unfold cexp. rewrite Z.log2_mul_pow2 by lia.
  destruct M as [|m|m]; try lia. rewrite Zdigits2_log2. lia.
Qed.

(** [binary_round] first aligns the mantissa to the left, so it rounds any
    positive [M * 2^E]. *)
Theorem binary_round_sem (M : positive) E b :
  0 <= b -> - 1074 - b <= E ->
  let x := binary_round prec emax false M E in
  nonneg x /\ scaled x = Z.min (RN b (Z.pos M * 2 ^ (E + 1074 + b))) (2 ^ 2098).
Proof.
  intros Hb HE x. unfold x, binary_round.
  set (e' := fexp prec emax (Z.pos (digits2_pos M) + E)).
  assert (He' : e' = Z.max (Zdigits2 (Z.pos M) + E - 53) (-1074)) by reflexivity.
  pose proof (shl_align_spec M E e') as [Hm He].
  destruct (shl_align M E e') as [M2 E2]. cbn [fst snd] in Hm, He.
  assert (HE2 : E2 <= e') by lia.
  assert (Hd2 : Zdigits2 (Z.pos M2) = Zdigits2 (Z.pos M) + (E - E2)).
  { rewrite Hm, He. apply Zdigits2_mul_pow2; lia. }
  assert (Hf : fexp prec emax (Zdigits2 (Z.pos M2) + E2) = e').
  { rewrite Hd2. unfold e'. f_equal. simpl Zdigits2. lia. }
  pose proof (binary_round_aux_sem (Z.pos M2) E2 ltac:(lia)) as H.
  cbv zeta in H. rewrite Hf in H. specialize (H HE2).
  destruct H as [Hn Hs]. split; [exact Hn|]. rewrite Hs. f_equal.
  assert (HX : Z.pos M * 2 ^ (E + 1074 + b) = Z.pos M2 * 2 ^ (E2 + 1074 + b)).
  { rewrite Hm, <- He, <- Z.mul_assoc, <- Z.pow_add_r by lia. f_equal. f_equal. lia. }
  unfold RN. rewrite HX, cexp_scaled by lia.
  replace (Z.max (Zdigits2 (Z.pos M2) + (E2 + 1074 + b) - 53) b) with (e' + 1074 + b) by lia.
  replace (e' + 1074 + b) with ((e' - E2) + (E2 + 1074 + b)) at 2 by lia.
  rewrite rne_scale by lia.
  replace (e' + 1074 + b - b) with (e' + 1074) by lia. ring.
Qed.

(** Validity of a finite double, spelled out. *)
Lemma valid_finite s m e :
  valid_binary (S754_finite s m e) = true ->
  e = Z.max (Zdigits2 (Z.pos m) + e - 53) (-1074) /\ e <= 971.
Proof.
  cbn [SpecFloat.valid_binary]. unfold bounded, canonical_mantissa.
  rewrite andb_true_iff, Z.eqb_eq, Z.leb_le. rewrite fexp_eq.
  intros [H1 H2]. split; [simpl Zdigits2; lia | exact H2].
Qed.

Lemma fin_nonneg_nonneg x : fin_nonneg x -> nonneg x.
Proof. destruct x; simpl; tauto. Qed.

Lemma Zdigits2_pos m : 1 <= Zdigits2 (Z.pos m).
Proof. rewrite Zdigits2_log2. pose proof (Z.log2_nonneg (Z.pos m)). lia. Qed.

Lemma scaled_bounds x : valid_binary x = true -> fin_nonneg x -> 0 <= scaled x < 2 ^ 2098.
Proof.
  intros Hv Hn. destruct x as [s|s| |s m e]; cbn [fin_nonneg] in Hn; try contradiction.
  - cbn [scaled]. split; [lia | apply pow2_pos; lia].
  - subst s. apply valid_finite in Hv. destruct Hv as [Hc He].
    pose proof (Zdigits2_bounds (Z.pos m) ltac:(lia)) as [_ Hhi].
    pose proof (Zdigits2_pos m).
    cbn [scaled]. rewrite Z.mul_1_l.
    assert (Hp : 0 < 2 ^ (e + 1074)) by (apply pow2_pos; lia).
    split; [nia|].
    assert (H53 : Z.pos m < 2 ^ 53).
    { pose proof (pow2_le (Zdigits2 (Z.pos m)) 53 ltac:(lia)). lia. }
    apply Z.lt_le_trans with (2 ^ 53 * 2 ^ (e + 1074)); [nia|].
    rewrite <- Z.pow_add_r by lia. apply pow2_le. lia.
Qed.

Lemma nonneg_fin x : nonneg x -> scaled x < 2 ^ 2098 -> fin_nonneg x.
Proof.
  destruct x as [s| s| |s m e]; cbn [nonneg fin_nonneg scaled]; try tauto.
  intros -> H. rewrite Z.mul_1_l in H. exact (Z.lt_irrefl _ H).
Qed.

(** A valid double is its own rounding. *)
Lemma scaled_representable x :
  valid_binary x = true -> fin_nonneg x -> exists N, scaled x = N * 2 ^ cexp 0 (scaled x).
Proof.
  intros Hv Hn. destruct x as [s|s| |s m e]; cbn [fin_nonneg] in Hn; try contradiction.
  - exists 0. reflexivity.
  - subst s. apply valid_finite in Hv. destruct Hv as [Hc He].
    exists (Z.pos m). cbn [scaled]. rewrite Z.mul_1_l.
    rewrite cexp_scaled by lia. f_equal. f_equal. lia.
Qed.

Lemma RN_representable b X N :
  0 <= b -> 0 <= X -> X = N * 2 ^ cexp 0 X -> RN b (X * 2 ^ b) = X.
Proof.
  intros Hb HX HN.
  destruct (Z.eq_dec X 0) as [->|NZ]; [rewrite Z.mul_0_l; apply RN_zero; lia|].
  assert (Hc : cexp b (X * 2 ^ b) = cexp 0 X + b).
  { unfold cexp. rewrite Z.log2_mul_pow2 by lia. lia. }
  pose proof (RN_exact b (X * 2 ^ b) N Hb) as H.
  rewrite Hc in H.
  assert (Hp : 0 < 2 ^ b) by (apply pow2_pos; lia).
  pose proof (cexp_ge 0 X).
  rewrite Z.pow_add_r in H by lia.
  assert (HXb : X * 2 ^ b = N * (2 ^ cexp 0 X * 2 ^ b)) by (rewrite HN at 1; ring).
  specialize (H HXb). nia.
Qed.

(** The product of two valid doubles is the rounded exact product; the
    product of their mantissas is long enough never to need the alignment. *)
Theorem SFmul_sem x y :
  valid_binary x = true -> valid_binary y = true -> fin_nonneg x -> fin_nonneg y ->
  nonneg (SFmul prec emax x y)
  /\ scaled (SFmul prec emax x y) = Z.min (RN 1074 (scaled x * scaled y)) (2 ^ 2098).
Proof.
  intros Vx Vy Nx Ny.
  assert (Z0 : Z.min (RN 1074 0) (2 ^ 2098) = 0).
  { rewrite RN_zero by lia. apply Z.min_l. apply Z.pow_nonneg; lia. }
  destruct x as [sx|sx| |sx mx ex]; cbn [fin_nonneg] in Nx; try contradiction;
    destruct y as [sy|sy| |sy my ey]; cbn [fin_nonneg] in Ny; try contradiction;
    cbn [SFmul scaled]; rewrite ?Z.mul_0_l, ?Z.mul_0_r, ?Z0; try (split; [exact I|reflexivity]).
  clear Z0. subst sx sy. cbn [xorb].
  apply valid_finite in Vx, Vy. destruct Vx as [Cx Bx], Vy as [Cy By].
  pose proof (Zdigits2_pos mx). pose proof (Zdigits2_pos my).
  assert (Hd : Zdigits2 (Z.pos mx) + Zdigits2 (Z.pos my) - 1 <= Zdigits2 (Z.pos (mx * my))).
  { rewrite !Zdigits2_log2, Pos2Z.inj_mul.
    pose proof (Z.log2_mul_below (Z.pos mx) (Z.pos my) ltac:(lia) ltac:(lia)). lia. }
  assert (HE : ex + ey <= fexp prec emax (Zdigits2 (Z.pos (mx * my)) + (ex + ey))).
  { rewrite fexp_eq. lia. }
  pose proof (binary_round_sem (mx * my) (ex + ey) 1074 ltac:(lia) ltac:(lia)) as Hbr.
  cbv zeta in Hbr. unfold binary_round in Hbr.
  unfold shl_align in Hbr.
  change (Z.pos (digits2_pos (mx * my))) with (Zdigits2 (Z.pos (mx * my))) in Hbr.
  destruct (fexp prec emax (Zdigits2 (Z.pos (mx * my)) + (ex + ey)) - (ex + ey)) eqn:Hs; try lia;
    (destruct Hbr as [Hn Hv]; split; [exact Hn|]; rewrite Hv; f_equal; f_equal;
     rewrite !Z.mul_1_l, Pos2Z.inj_mul;
     replace (ex + ey + 1074 + 1074) with ((ex + 1074) + (ey + 1074)) by lia;
     rewrite Z.pow_add_r by lia; ring).
Qed.

Lemma RN0_valid x : valid_binary x = true -> fin_nonneg x -> RN 0 (scaled x) = scaled x.
Proof.
  intros Hv Hn. destruct (scaled_representable x Hv Hn) as [N HN].
  pose proof (scaled_bounds x Hv Hn) as [H0 _].
  pose proof (RN_representable 0 (scaled x) N ltac:(lia) H0 HN) as H.
  rewrite Z.pow_0_r, Z.mul_1_r in H. exact H.
Qed.

(** A difference that is not negative is the rounded exact difference. *)
Theorem SFsub_sem x y :
  valid_binary x = true -> valid_binary y = true -> fin_nonneg x -> fin_nonneg y ->
  scaled y <= scaled x ->
  fin_nonneg (SFsub prec emax x y) /\ scaled (SFsub prec emax x y) = RN 0 (scaled x - scaled y).
Proof.
  intros Vx Vy Nx Ny Hle.
  pose proof (scaled_bounds x Vx Nx) as Bx. pose proof (scaled_bounds y Vy Ny) as By_.
  assert (Hfin : RN 0 (scaled x - scaled y) < 2 ^ 2098).
  { apply Z.le_lt_trans with (RN 0 (scaled x)); [apply RN_mono; hide_big; lia|].
    rewrite RN0_valid by assumption. apply Bx. }
  pose proof (RN0_valid x Vx Nx) as Rx.
  destruct x as [sx|sx| |sx mx ex]; cbn [fin_nonneg] in Nx; try contradiction;
    destruct y as [sy|sy| |sy my ey]; cbn [fin_nonneg] in Ny; try contradiction.
  - cbn [scaled]. rewrite RN_zero by lia.
    destruct sx, sy; cbn; split; reflexivity || exact I.
  - subst sy. cbn [scaled] in Hle.
    assert (0 < Z.pos my * 2 ^ (ey + 1074)).
    { apply Z.mul_pos_pos; [lia|]. apply valid_finite in Vy. apply pow2_pos; lia. }
    clear - Hle H. lia.
  - cbn [SFsub]. split; [exact Nx|]. cbn [scaled] in *. rewrite Z.sub_0_r. symmetry. exact Rx.
  - subst sx sy. cbn [SFsub cond_Zopp].
    pose proof (valid_finite _ _ _ Vx) as [Cx _].
    pose proof (valid_finite _ _ _ Vy) as [Cy _].
    set (ez := Z.min ex ey).
    pose proof (shl_align_spec mx ex ez) as [Hmx _].
    pose proof (shl_align_spec my ey ez) as [Hmy _].
    replace (Z.min ex ez) with ez in Hmx by lia.
    replace (Z.min ey ez) with ez in Hmy by lia.
    rewrite Hmx, Hmy.
    assert (HD : (Z.pos mx * 2 ^ (ex - ez) - Z.pos my * 2 ^ (ey - ez)) * 2 ^ (ez + 1074)
                 = scaled (S754_finite false mx ex) - scaled (S754_finite false my ey)).
    { cbn [scaled]. rewrite !Z.mul_1_l, Z.mul_sub_distr_r, <- !Z.mul_assoc, <- !Z.pow_add_r by lia.
      f_equal; f_equal; f_equal; lia. }
    assert (Hp : 0 < 2 ^ (ez + 1074)) by (apply pow2_pos; lia).
    destruct (Z.pos mx * 2 ^ (ex - ez) - Z.pos my * 2 ^ (ey - ez)) as [|D|D] eqn:ED.
    + cbn [binary_normalize]. split; [exact I|].
      rewrite <- HD, Z.mul_0_l, RN_zero by lia. reflexivity.
    + cbn [binary_normalize].
      pose proof (binary_round_sem D ez 0 ltac:(lia) ltac:(lia)) as [Hn Hs].
      rewrite Z.add_0_r, HD in Hs.
      rewrite Z.min_l in Hs by (apply Z.lt_le_incl; exact Hfin).
      split; [|exact Hs]. apply nonneg_fin; [exact Hn | rewrite Hs; exact Hfin].
    + lia.
Qed.

(** Among valid doubles a smaller exponent means a smaller value: only a
    normal double has an exponent above the least one. *)
Lemma scaled_finite_lt m1 e1 m2 e2 :
  valid_binary (S754_finite false m1 e1) = true ->
  valid_binary (S754_finite false m2 e2) = true ->
  e1 < e2 ->
  scaled (S754_finite false m1 e1) < scaled (S754_finite false m2 e2).
Proof.
  intros V1 V2 He.
  apply valid_finite in V1, V2. destruct V1 as [C1 _], V2 as [C2 _].
  pose proof (Zdigits2_bounds (Z.pos m1) ltac:(lia)) as [_ Hhi].
  pose proof (Zdigits2_bounds (Z.pos m2) ltac:(lia)) as [Hlo _].
  assert (H53 : Z.pos m1 < 2 ^ 53).
  { pose proof (pow2_le (Zdigits2 (Z.pos m1)) 53 ltac:(lia)). lia. }
  assert (H52 : 2 ^ 52 <= Z.pos m2).
  { replace (Zdigits2 (Z.pos m2) - 1) with 52 in Hlo by lia. exact Hlo. }
  cbn [scaled]. rewrite !Z.mul_1_l.
  assert (Hp1 : 0 < 2 ^ (e1 + 1074)) by (apply pow2_pos; lia).
  assert (Hp2 : 0 < 2 ^ (e2 + 1074)) by (apply pow2_pos; lia).
  apply Z.lt_le_trans with (2 ^ 53 * 2 ^ (e1 + 1074)); [nia|].
  apply Z.le_trans with (2 ^ 52 * 2 ^ (e2 + 1074)); [|nia].
  rewrite <- !Z.pow_add_r by lia. apply pow2_le. lia.
Qed.

(** The comparison of valid doubles is the comparison of their exact
    values. *)
Theorem SFcompare_scaled x y :
  valid_binary x = true -> valid_binary y = true -> fin_nonneg x -> fin_nonneg y ->
  SFcompare x y = Some (scaled x ?= scaled y).
Proof.
  intros Vx Vy Nx Ny.
  destruct x as [sx|sx| |sx mx ex]; cbn [fin_nonneg] in Nx; try contradiction;
    destruct y as [sy|sy| |sy my ey]; cbn [fin_nonneg] in Ny; try contradiction;
    subst; cbn [SFcompare].
  - reflexivity.
  - f_equal. symmetry. apply Z.compare_lt_iff.
    cbn [scaled]. apply valid_finite in Vy.
    pose proof (pow2_pos (ey + 1074) ltac:(lia)). nia.
  - f_equal. symmetry. apply Z.compare_gt_iff.
    cbn [scaled]. apply valid_finite in Vx.
    pose proof (pow2_pos (ex + 1074) ltac:(lia)). nia.
  - f_equal. destruct (Z.compare_spec ex ey) as [E|L|G].
    + subst ey. cbn [scaled]. rewrite !Z.mul_1_l.
      apply valid_finite in Vx.
      pose proof (pow2_pos (ex + 1074) ltac:(lia)) as Hp.
      rewrite Pos.compare_cont_spec. cbn [Pos.switch_Eq].
      change (mx ?= my)%positive with (Z.pos mx ?= Z.pos my).
      destruct (Z.compare_spec (Z.pos mx) (Z.pos my)) as [E|L|G]; symmetry.
      * apply Z.compare_eq_iff. congruence.
      * apply Z.compare_lt_iff. nia.
      * apply Z.compare_gt_iff. nia.
    + symmetry. apply Z.compare_lt_iff. apply scaled_finite_lt; assumption.
    + symmetry. apply Z.compare_gt_iff. apply scaled_finite_lt; assumption.
Qed.

(** * The primitive operations on exact values

    Every primitive float is valid ([Prim2SF_valid]), so the statements of
    the previous part hold of [*], [-], [<=?] and [<?] without a validity
    hypothesis. *)

Lemma exact_bounds x : fin_nonneg (Prim2SF x) -> 0 <= exact x < 2 ^ 2098.
Proof. intros H. apply scaled_bounds; [apply Prim2SF_valid | exact H]. Qed.

Theorem mul_exact x y :
  fin_nonneg (Prim2SF x) -> fin_nonneg (Prim2SF y) ->
  nonneg (Prim2SF (x * y)) /\ exact (x * y) = Z.min (RN 1074 (exact x * exact y)) (2 ^ 2098).
Proof.
  intros Hx Hy. unfold exact. rewrite mul_spec.
  apply SFmul_sem; auto using Prim2SF_valid.
Qed.

Theorem sub_exact x y :
  fin_nonneg (Prim2SF x) -> fin_nonneg (Prim2SF y) -> exact y <= exact x ->
  fin_nonneg (Prim2SF (x - y)) /\ exact (x - y) = RN 0 (exact x - exact y).
Proof.
  intros Hx Hy Hle. unfold exact. rewrite sub_spec.
  apply SFsub_sem; auto using Prim2SF_valid.
Qed.

Lemma compare_exact x y :
  fin_nonneg (Prim2SF x) -> fin_nonneg (Prim2SF y) ->
  SFcompare (Prim2SF x) (Prim2SF y) = Some (exact x ?= exact y).
Proof. intros Hx Hy. apply SFcompare_scaled; auto using Prim2SF_valid. Qed.

Theorem leb_exact x y :
  fin_nonneg (Prim2SF x) -> fin_nonneg (Prim2SF y) ->
  (x <=? y)%float = (exact x <=? exact y).
Proof.
  intros Hx Hy. rewrite leb_spec. unfold SFleb. rewrite compare_exact by assumption.
  unfold Z.leb. destruct (exact x ?= exact y); reflexivity.
Qed.

Theorem ltb_exact x y :
  fin_nonneg (Prim2SF x) -> fin_nonneg (Prim2SF y) ->
  (x <? y)%float = (exact x <? exact y).
Proof.
  intros Hx Hy. rewrite ltb_spec. unfold SFltb. rewrite compare_exact by assumption.
  unfold Z.ltb. destruct (exact x ?= exact y); reflexivity.
Qed.

Lemma is_nan_fin x : fin_nonneg (Prim2SF x) -> is_nan x = false.
Proof.
  intros Hx. unfold is_nan. rewrite eqb_spec. unfold SFeqb.
  rewrite compare_exact by assumption. rewrite Z.compare_refl. reflexivity.
Qed.

Lemma Prim2SF_zero : Prim2SF 0 = S754_zero false.
Proof. reflexivity. Qed.

Lemma Prim2SF_infinity : Prim2SF infinity = S754_infinity false.
Proof. reflexivity. Qed.

Lemma nonneg_finite_fin x : nonneg_finite x = true -> fin_nonneg (Prim2SF x).
Proof.
  unfold nonneg_finite. rewrite andb_true_iff, leb_spec, ltb_spec.
  rewrite Prim2SF_zero, Prim2SF_infinity.
  destruct (Prim2SF x) as [s|[|]| |[|] m e]; cbn; intuition congruence.
Qed.

(** A number between two positive finite ones is finite and positive. *)
Lemma between_fin lo hi x :
  fin_nonneg (Prim2SF lo) -> fin_nonneg (Prim2SF hi) ->
  0 < exact lo ->
  (lo <=? x)%float = true -> (x <=? hi)%float = true ->
  fin_nonneg (Prim2SF x) /\ exact lo <= exact x <= exact hi.
Proof.
  intros Hlo Hhi Hpos H1 H2.
  assert (Hx : fin_nonneg (Prim2SF x)).
  { rewrite leb_spec in H1, H2. unfold exact in Hpos.
    destruct (Prim2SF lo) as [sl|sl| |sl ml el]; cbn [fin_nonneg] in Hlo; try contradiction;
      [cbn in Hpos; lia|].
    destruct (Prim2SF hi) as [sh|sh| |sh mh eh]; cbn [fin_nonneg] in Hhi; try contradiction;
    subst; destruct (Prim2SF x) as [s|[|]| |[|] m e]; cbn in *; congruence || exact I || reflexivity. }
  split; [exact Hx|].
  rewrite leb_exact in H1, H2 by assumption.
  apply Z.leb_le in H1, H2. lia.
Qed.

(** ** [Math.max(0, v)] and [Math.round] on exact values *)

(** [Math.max(0, v)] changes nothing but the sign of a zero. *)
Lemma Math_max_0 v :
  fin_nonneg (Prim2SF v) ->
  fin_nonneg (Prim2SF (Math_max 0 v)) /\ exact (Math_max 0 v) = exact v.
Proof.
  intros Hv. unfold Math_max.
  rewrite (is_nan_fin v Hv).
  change (is_nan 0) with false. cbn [orb].
  assert (H0 : fin_nonneg (Prim2SF 0)) by exact I.
  rewrite !ltb_exact by assumption.
  change (exact 0) with 0.
  pose proof (exact_bounds v Hv) as [Hge _].
  destruct (Z.ltb_spec 0 (exact v)).
  - auto.
  - destruct (Z.ltb_spec (exact v) 0); [lia|].
    change (get_sign 0) with false. cbv iota.
    split; [exact I|]. change (exact 0) with 0. lia.
Qed.

(** Integers up to [2^53] are doubles. *)
Lemma int_representable n :
  0 <= n <= 2 ^ 53 -> exists N, n * 2 ^ 1074 = N * 2 ^ cexp 0 (n * 2 ^ 1074).
Proof.
  intros [H0 H53].
  destruct (Z.eq_dec n 0) as [->|NZ]; [exists 0; reflexivity|].
  unfold cexp. rewrite Z.log2_mul_pow2 by lia.
  pose proof (Z.log2_nonneg n) as Hl.
  destruct (Z.eq_dec n (2 ^ 53)) as [->|N53].
  - rewrite Z.log2_pow2 by lia. exists (2 ^ 52).
    replace (Z.max (1074 + 53 - 52) 0) with (1 + 1074) by lia.
    rewrite (Z.pow_add_r 2 1 1074) by lia.
    change (2 ^ 53) with (2 ^ 52 * 2 ^ 1). symmetry. apply Z.mul_assoc.
  - assert (Hlt : Z.log2 n < 53) by (apply Z.log2_lt_pow2; lia).
    replace (Z.max (1074 + Z.log2 n - 52) 0) with (Z.log2 n + 1022) by lia.
    exists (n * 2 ^ (52 - Z.log2 n)).
    rewrite <- Z.mul_assoc, <- Z.pow_add_r by lia. f_equal. f_equal. lia.
Qed.

Lemma RN0_int n : 0 <= n <= 2 ^ 53 -> RN 0 (n * 2 ^ 1074) = n * 2 ^ 1074.
Proof.
  intros H. destruct (int_representable n H) as [N HN].
  pose proof (RN_exact 0 _ N ltac:(lia) HN) as HR.
  rewrite Z.pow_0_r, Z.mul_1_r in HR. exact HR.
Qed.

Lemma RN1074_int n m :
  0 <= n -> 0 <= m -> n * m <= 2 ^ 53 ->
  RN 1074 ((n * 2 ^ 1074) * (m * 2 ^ 1074)) = n * m * 2 ^ 1074.
Proof.
  intros Hn Hm H.
  assert (Hnm : 0 <= n * m) by nia.
  destruct (int_representable (n * m) ltac:(lia)) as [N HN].
  replace (n * 2 ^ 1074 * (m * 2 ^ 1074)) with (n * m * 2 ^ 1074 * 2 ^ 1074)
    by (hide_big; ring).
  apply (RN_representable 1074 _ N); [lia| |exact HN].
  apply Z.mul_nonneg_nonneg; [lia|]. apply Z.pow_nonneg; lia.
Qed.

Lemma int_below_overflow n : 0 <= n <= 2 ^ 53 -> n * 2 ^ 1074 < 2 ^ 2098.
Proof.
  intros H. apply Z.le_lt_trans with (2 ^ 53 * 2 ^ 1074).
  - apply Z.mul_le_mono_nonneg_r; [apply Z.pow_nonneg|]; lia.
  - rewrite <- Z.pow_add_r by lia. apply pow2_lt; lia.
Qed.

(** The conversion of [Math_round] is exact. *)
Lemma of_Z_exact n :
  0 <= n <= 2 ^ 53 ->
  fin_nonneg (Prim2SF (of_Z n)) /\ exact (of_Z n) = n * 2 ^ 1074.
Proof.
  intros H. destruct n as [|p|p]; [split; [exact I|reflexivity]| |lia].
  unfold of_Z, exact. rewrite of_uint63_spec, Uint63.of_Z_spec.
  rewrite Z.mod_small.
  2:{ split; [lia|]. apply Z.le_lt_trans with (2 ^ 53); [lia|reflexivity]. }
  cbn [binary_normalize].
  pose proof (binary_round_sem p 0 0 ltac:(lia) ltac:(lia)) as [Hn Hs].
  replace (0 + 1074 + 0) with 1074 in Hs by lia.
  rewrite RN0_int in Hs by lia.
  pose proof (int_below_overflow (Z.pos p) H) as Hlt.
  rewrite Z.min_l in Hs by (apply Z.lt_le_incl; exact Hlt).
  split; [|exact Hs]. apply nonneg_fin; [exact Hn | rewrite Hs; exact Hlt].
Qed.

Lemma floor_half_up_int n : floor_half_up (n * 2 ^ 1074) = n.
Proof.
  unfold floor_half_up.
  replace (2 * (n * 2 ^ 1074) + 2 ^ 1074) with ((2 * n + 1) * 2 ^ 1074)
    by (hide_big; ring).
  change (2 ^ 1075) with (2 * 2 ^ 1074).
  rewrite Z.div_mul_cancel_r by (try apply Z.pow_nonzero; lia).
  symmetry. apply Z.div_unique with 1; lia.
Qed.

Lemma floor_half_up_mono X Y : X <= Y -> floor_half_up X <= floor_half_up Y.
Proof.
  intros H. unfold floor_half_up. apply Z.div_le_mono; [apply pow2_pos; lia|].
  hide_big. lia.
Qed.

(** [Math.round] on a non-negative finite number: the floor of the exact
    value plus one half. *)
Theorem Math_round_exact x :
  fin_nonneg (Prim2SF x) ->
  fin_nonneg (Prim2SF (Math_round x))
  /\ exact (Math_round x) = floor_half_up (exact x) * 2 ^ 1074.
Proof.
  intros Hx. unfold Math_round. pose proof (Prim2SF_valid x) as Hv.
  unfold exact at 2.
  destruct (Prim2SF x) as [s|s| |s m e] eqn:E; cbn [fin_nonneg] in Hx; try contradiction.
  - rewrite E. split; [exact I|]. unfold exact. rewrite E. reflexivity.
  - subst s. apply valid_finite in Hv. destruct Hv as [Hc He].
    pose proof (Zdigits2_bounds (Z.pos m) ltac:(lia)) as [_ Hhi].
    assert (H53 : Z.pos m < 2 ^ 53).
    { pose proof (pow2_le (Zdigits2 (Z.pos m)) 53 ltac:(lia)). lia. }
    cbn [scaled]. rewrite Z.mul_1_l.
    destruct (Z.leb_spec 0 e) as [Hpos|Hneg].
    + rewrite E. split; [reflexivity|]. unfold exact. rewrite E. cbn [scaled].
      rewrite Z.mul_1_l, Z.pow_add_r, Z.mul_assoc by lia.
      rewrite floor_half_up_int. reflexivity.
    + destruct e as [|k|k]; try lia.
      cbn [round_half_up].
      assert (HK : Z.pos k <= 1074) by lia.
      set (K := Z.pos k) in *.
      assert (Hfl : floor_half_up (Z.pos m * 2 ^ (Z.neg k + 1074))
                    = (2 * Z.pos m + 2 ^ K) / 2 ^ (K + 1)).
      { unfold floor_half_up.
        replace (Z.neg k + 1074) with (1074 - K) by (unfold K; lia).
        replace (2 ^ 1074) with (2 ^ K * 2 ^ (1074 - K))
          by (rewrite <- Z.pow_add_r by lia; f_equal; lia).
        replace (2 ^ 1075) with (2 ^ (K + 1) * 2 ^ (1074 - K))
          by (rewrite <- Z.pow_add_r by lia; f_equal; lia).
        replace (2 * (Z.pos m * 2 ^ (1074 - K)) + 2 ^ K * 2 ^ (1074 - K))
          with ((2 * Z.pos m + 2 ^ K) * 2 ^ (1074 - K)) by ring.
        apply Z.div_mul_cancel_r; apply Z.pow_nonzero; lia. }
      rewrite Hfl.
      set (n := (2 * Z.pos m + 2 ^ K) / 2 ^ (K + 1)).
      assert (HpK : 0 < 2 ^ K) by (apply pow2_pos; lia).
      assert (Hn0 : 0 <= n) by (apply Z.div_pos; [lia | apply pow2_pos; lia]).
      assert (Hn53 : n <= 2 ^ 53).
      { unfold n. apply Z.div_le_upper_bound; [apply pow2_pos; lia|].
        rewrite Z.pow_add_r, Z.pow_1_r by lia.
        change (2 ^ 53) with 9007199254740992 in *. nia. }
      destruct (Z.eqb_spec n 0) as [Hz|Hnz].
      * rewrite Hz. split; [exact I|reflexivity].
      * apply of_Z_exact. lia.
Qed.

(** ** The state factor *)

(** A statement about every entry of [STATE_FACTOR]: one goal per entry,
    each closed by [tac]. *)
Ltac by_table Hin tac :=
  cbn [map snd STATE_FACTOR In] in Hin;
  repeat (destruct Hin as [<-|Hin]; [tac|]);
  contradiction.

Lemma own_property_In k o x : own_property k o = Some x -> In x (map snd o).
Proof.
  induction o as [|[k' y] o IH]; cbn [own_property map snd]; [discriminate|].
  destruct (String.eqb k k'); [intros [= ->]; left; reflexivity | right; auto].
Qed.

Lemma resolve_state_number s :
  inherited s = false ->
  exists x, resolve_state s = JNumber x /\ In x (map snd STATE_FACTOR).
Proof.
  intros Hs. unfold resolve_state, read_property. rewrite Hs.
  destruct (own_property s STATE_FACTOR) as [x|] eqn:E.
  - exists x. pose proof (own_property_In _ _ _ E) as Hin. split; [|exact Hin].
    by_table Hin ltac:(reflexivity).
  - exists 1%float. split; [reflexivity|]. cbn. tauto.
Qed.


Lemma STATES_not_inherited : forallb (fun s => negb (inherited s)) STATES = true.
Proof. reflexivity. Qed.

Lemma STATES_resolve s : In s STATES -> inherited s = false.
Proof.
  intros H. pose proof STATES_not_inherited as HA.
  rewrite forallb_forall in HA. apply HA in H. apply negb_true_iff. exact H.
Qed.

(** ** The savings multiplier, over the whole table *)

Lemma savingsMultiplier_compute a x v c h p :
  savingsMultiplier (compute (AGE_FACTOR a) (JNumber x) (VEHICLE_FACTOR v)
                             (COVERAGE_FACTOR c) (HISTORY_FACTOR h) p)
  = multiplier a x v c h.
Proof. reflexivity. Qed.

(** The clamp holds on the whole table: 6 x 8 x 6 x 3 x 2 evaluations. *)
Lemma multiplier_range a x v c h :
  In x (map snd STATE_FACTOR) ->
  (0.70 <=? multiplier a x v c h)%float = true
  /\ (multiplier a x v c h <=? 1.0)%float = true.
Proof.
  intros Hin.
  by_table Hin ltac:(destruct a, v, c, h; vm_compute; split; reflexivity).
Qed.

(** A larger coverage factor gives a multiplier that is not larger. *)
Lemma multiplier_coverage a x v h :
  In x (map snd STATE_FACTOR) ->
  (multiplier a x v full h <=? multiplier a x v standard h)%float = true
  /\ (multiplier a x v standard h <=? multiplier a x v minimum h)%float = true.
Proof.
  intros Hin.
  by_table Hin ltac:(destruct a, v, h; vm_compute; split; reflexivity).
Qed.

(** At a premium of zero the rounded product is zero. *)
Lemma zero_times_multiplier a x v c h :
  In x (map snd STATE_FACTOR) ->
  Math_round (0 * multiplier a x v c h) = 0%float.
Proof.
  intros Hin. by_table Hin ltac:(destruct a, v, c, h; reflexivity).
Qed.

(** ** The chain after the multiplier *)

Lemma App_number i x :
  resolve_state (state i) = JNumber x ->
  let sm := multiplier (ageRange i) x (vehicleType i) (coverageLevel i) (drivingHistory i) in
  let p := currentPremium i in
  savingsMultiplier (App i) = sm
  /\ estimatedNewPremium (App i) = Math_round (p * sm)
  /\ monthlySavings (App i) = Math_max 0 (p - Math_round (p * sm))
  /\ annualSavings (App i) = (Math_max 0 (p - Math_round (p * sm)) * 12)%float.
Proof. intros H. unfold App. rewrite H. repeat split; reflexivity. Qed.

Lemma exact_one : exact 1 = 2 ^ 1074.
Proof. reflexivity. Qed.

Lemma multiplier_exact a x v c h :
  In x (map snd STATE_FACTOR) ->
  fin_nonneg (Prim2SF (multiplier a x v c h))
  /\ exact 0.70 <= exact (multiplier a x v c h) <= 2 ^ 1074.
Proof.
  intros Hin. destruct (multiplier_range a x v c h Hin) as [Hlo Hhi].
  rewrite <- exact_one.
  apply between_fin; try assumption; reflexivity.
Qed.

Lemma isInteger_exact p :
  Number_isInteger p = true -> (0 <=? p)%float = true ->
  fin_nonneg (Prim2SF p) /\ exists N, 0 <= N /\ exact p = N * 2 ^ 1074.
Proof.
  unfold Number_isInteger, exact. rewrite leb_spec, Prim2SF_zero.
  pose proof (Prim2SF_valid p) as Hv.
  destruct (Prim2SF p) as [s|s| |s m e]; try discriminate.
  - intros _ _. split; [exact I|]. exists 0. split; [lia|reflexivity].
  - intros Hint Hpos.
    assert (s = false) by (destruct s; [discriminate|reflexivity]). subst s.
    split; [reflexivity|].
    apply valid_finite in Hv. destruct Hv as [Hc _].
    cbn [scaled]. rewrite Z.mul_1_l.
    apply orb_true_iff in Hint. destruct Hint as [He|Hm].
    + apply Z.leb_le in He. exists (Z.pos m * 2 ^ e). split.
      * apply Z.mul_nonneg_nonneg; [lia | apply Z.pow_nonneg; lia].
      * rewrite Z.pow_add_r by lia. apply Z.mul_assoc.
    + apply Z.eqb_eq in Hm.
      destruct (Z_le_gt_dec 0 e) as [He|He].
      * exists (Z.pos m * 2 ^ e). split.
        -- apply Z.mul_nonneg_nonneg; [lia | apply Z.pow_nonneg; lia].
        -- rewrite Z.pow_add_r by lia. apply Z.mul_assoc.
      * assert (Hp : 0 < 2 ^ (- e)) by (apply pow2_pos; lia).
        exists (Z.pos m / 2 ^ (- e)). split; [apply Z.div_pos; lia|].
        pose proof (Z.div_mod (Z.pos m) (2 ^ (- e)) ltac:(lia)) as Hdm.
        rewrite Hm, Z.add_0_r in Hdm. rewrite Hdm at 1.
        replace 1074 with (- e + (e + 1074)) at 2 by lia.
        rewrite (Z.pow_add_r 2 (- e)) by lia. ring.
Qed.

(** A product with a factor of at most one is at most the other factor:
    the exact product is, and rounding keeps the order and fixes doubles. *)
Section Discount.

Variables p s : float.
Hypothesis Hp : fin_nonneg (Prim2SF p).
Hypothesis Hs : fin_nonneg (Prim2SF s).
Hypothesis Hle : exact s <= 2 ^ 1074.

Lemma mul_le_one :
  fin_nonneg (Prim2SF (p * s))
  /\ exact (p * s) = RN 1074 (exact p * exact s)
  /\ exact (p * s) <= exact p.
Proof.
  destruct (mul_exact p s Hp Hs) as [Hn He].
  pose proof (exact_bounds p Hp) as [Hp0 Hp1].
  pose proof (exact_bounds s Hs) as [Hs0 _].
  destruct (scaled_representable (Prim2SF p) (Prim2SF_valid p) Hp) as [N HN].
  fold (exact p) in HN.
  assert (Hbound : RN 1074 (exact p * exact s) <= exact p).
  { rewrite <- (RN_representable 1074 (exact p) N ltac:(lia) Hp0 HN) at 2.
    apply RN_mono; [lia|]. split; [apply Z.mul_nonneg_nonneg; assumption|].
    apply Z.mul_le_mono_nonneg_l; assumption. }
  assert (Hfin : exact (p * s) < 2 ^ 2098 -> fin_nonneg (Prim2SF (p * s)))
    by (apply nonneg_fin; exact Hn).
  hide_big.
  rewrite Z.min_l in He by lia.
  split; [apply Hfin; lia|].
  split; [exact He | lia].
Qed.

(** [Math.round(p * s)] *)
Lemma round_mul :
  fin_nonneg (Prim2SF (Math_round (p * s)))
  /\ exact (Math_round (p * s)) = floor_half_up (exact (p * s)) * 2 ^ 1074.
Proof.
  destruct mul_le_one as (Hf & _ & _).
  apply Math_round_exact. exact Hf.
Qed.

(** For an integer [p] the rounded product is an integer between 0 and [p]. *)
Lemma round_mul_le_int N :
  exact p = N * 2 ^ 1074 ->
  exists n, 0 <= n <= N /\ exact (Math_round (p * s)) = n * 2 ^ 1074.
Proof.
  intros HN.
  destruct round_mul as [Fr Er].
  destruct mul_le_one as (Hf & _ & Hb).
  exists (floor_half_up (exact (p * s))). split; [|exact Er].
  split.
  - pose proof (exact_bounds _ Hf) as [H0 _].
    unfold floor_half_up. apply Z.div_pos; [|apply pow2_pos; lia].
    pose proof (pow2_pos 1074 ltac:(lia)). lia.
  - rewrite <- (floor_half_up_int N), <- HN. apply floor_half_up_mono. exact Hb.
Qed.

End Discount.

(** The product and its rounding keep the order of the factors. *)
Lemma mul_mono p s t :
  fin_nonneg (Prim2SF p) -> fin_nonneg (Prim2SF s) -> fin_nonneg (Prim2SF t) ->
  exact s <= exact t -> exact t <= 2 ^ 1074 ->
  exact (p * s) <= exact (p * t).
Proof.
  intros Hp Hs Ht Hst Ht1.
  destruct (mul_le_one p s Hp Hs (Z.le_trans _ _ _ Hst Ht1)) as (_ & Es & _).
  destruct (mul_le_one p t Hp Ht Ht1) as (_ & Et & _).
  rewrite Es, Et.
  pose proof (exact_bounds p Hp) as [Hp0 _].
  pose proof (exact_bounds s Hs) as [Hs0 _].
  apply RN_mono; [lia|]. split; [apply Z.mul_nonneg_nonneg; assumption|].
  apply Z.mul_le_mono_nonneg_l; assumption.
Qed.

Lemma round_mul_mono p s t :
  fin_nonneg (Prim2SF p) -> fin_nonneg (Prim2SF s) -> fin_nonneg (Prim2SF t) ->
  exact s <= exact t -> exact t <= 2 ^ 1074 ->
  (Math_round (p * s) <=? Math_round (p * t))%float = true.
Proof.
  intros Hp Hs Ht Hst Ht1.
  destruct (round_mul p s Hp Hs (Z.le_trans _ _ _ Hst Ht1)) as [Fs Es].
  destruct (round_mul p t Hp Ht Ht1) as [Ft Et].
  rewrite leb_exact by assumption. apply Z.leb_le. rewrite Es, Et.
  apply Z.mul_le_mono_nonneg_r; [apply Z.pow_nonneg; lia|].
  apply floor_half_up_mono. apply mul_mono; assumption.
Qed.

(** * The properties *)

(** The models of [Math.round], [Math.max] and [Math.min] on the cases that
    set them apart from their neighbours. *)
Example Math_round_examples :
  Math_round 2.5 = 3%float /\ Math_round 2.4 = 2%float
  /\ Math_round (-2.5) = (-2)%float /\ Math_round (-2.6) = (-3)%float
  /\ Math_round 0.49999999999999994 = 0%float
  /\ Math_round (-0.2) = neg_zero /\ Math_round neg_zero = neg_zero
  /\ Math_round 4503599627370497 = 4503599627370497%float
  /\ Math_round infinity = infinity /\ is_nan (Math_round nan) = true.
Proof. repeat split; reflexivity. Qed.

Example Math_max_min_examples :
  is_nan (Math_max 0.70 nan) = true /\ is_nan (Math_min 1.0 nan) = true
  /\ Math_max neg_zero 0 = 0%float /\ Math_max 0 neg_zero = 0%float
  /\ Math_min 0 neg_zero = neg_zero /\ Math_min 1.0 infinity = 1.0%float
  /\ Math_max 0.70 0.163 = 0.70%float /\ Math_min 1.0 1.415 = 1.0%float.
Proof. repeat split; reflexivity. Qed.

(** Exact values are counted in units of [2^-1074]. *)
Example exact_examples :
  exact 1 = 2 ^ 1074 /\ exact 0.5 = 2 ^ 1073 /\ exact 180 = 180 * 2 ^ 1074
  /\ exact 0 = 0 /\ 10 * exact 0.70 < 7 * 2 ^ 1074.
Proof. repeat split; reflexivity. Qed.

(** Every option of the state selector resolves to a number: the seven
    listed states to their factor, the other forty-four to the default. *)
Lemma STATES_resolve_number s :
  In s STATES -> exists x, resolve_state s = JNumber x /\ In x (map snd STATE_FACTOR).
Proof. intros H. apply resolve_state_number, STATES_resolve, H. Qed.



(** Outside the valid inputs.  The string ["constructor"] is no option of
    the state select and the form never holds it; were it read, the table
    would yield the inherited function, the [||] of line 33 would not fall
    back, and the product and the multiplier would be [NaN]. *)
Lemma savingsMultiplier_constructor :
  ~ ((0.70 <=? savingsMultiplier (App constructor_values))%float = true
     /\ (savingsMultiplier (App constructor_values) <=? 1.0)%float = true).
Proof. intros [H _]. vm_compute in H. discriminate. Qed.

(** C2.  For every input with a non-negative integer premium (and a state
    that resolves to a number, as every option of the selector does), the monthly
    savings are not negative and the estimated premium is not above
    the current one. *)
Theorem savings_nonneg (i : SavingsInput) :
  inherited (state i) = false ->
  Number_isInteger (currentPremium i) = true ->
  (0 <=? currentPremium i)%float = true ->
  (0 <=? monthlySavings (App i))%float = true
  /\ (estimatedNewPremium (App i) <=? currentPremium i)%float = true.
Proof.
  intros Hs Hint Hpos. destruct (resolve_state_number _ Hs) as (x & Hx & Hin).
  destruct (App_number i x Hx) as (_ & -> & -> & _).
  set (p := currentPremium i) in *.
  set (sm := multiplier _ _ _ _ _).
  destruct (multiplier_exact (ageRange i) x (vehicleType i) (coverageLevel i)
              (drivingHistory i) Hin) as (Fsm & _ & Hsm1). fold sm in Fsm, Hsm1.
  destruct (isInteger_exact p Hint Hpos) as (Fp & N & HN0 & HN).
  destruct (round_mul p sm Fp Fsm Hsm1) as [Fr _].
  destruct (round_mul_le_int p sm Fp Fsm Hsm1 N HN) as (n & Hn & En).
  assert (Hle : exact (Math_round (p * sm)) <= exact p).
  { rewrite En, HN. apply Z.mul_le_mono_nonneg_r; [apply Z.pow_nonneg|]; lia. }
  destruct (sub_exact p _ Fp Fr Hle) as [Fd _].
  destruct (Math_max_0 _ Fd) as [Fm _].
  split.
  - rewrite leb_exact by (assumption || exact I). apply Z.leb_le.
    apply (exact_bounds _ Fm).
  - rewrite leb_exact by assumption. apply Z.leb_le. exact Hle.
Qed.

Lemma savings_nonneg_witness :
  inherited (state initial_values) = false
  /\ Number_isInteger (currentPremium initial_values) = true
  /\ (0 <=? currentPremium initial_values)%float = true
  /\ (0 <=? monthlySavings (App initial_values))%float = true
  /\ (estimatedNewPremium (App initial_values) <=? currentPremium initial_values)%float = true.
Proof.
  split; [reflexivity|]. split; [reflexivity|]. split; [reflexivity|].
  apply (savings_nonneg initial_values); reflexivity.
Defined.

(** C3, as amended.  With the other fields and a non-negative finite premium
    fixed, going from minimum to standard or from standard to full coverage
    never raises the estimated new premium. *)
Theorem coverage_never_raises_estimate a s v h p :
  inherited s = false ->
  nonneg_finite p = true ->
  let at_level c :=
    estimatedNewPremium
      (App {| ageRange := a; state := s; vehicleType := v; coverageLevel := c;
              drivingHistory := h; currentPremium := p |}) in
  (at_level full <=? at_level standard)%float = true
  /\ (at_level standard <=? at_level minimum)%float = true.
Proof.
  intros Hs Hp at_level. destruct (resolve_state_number _ Hs) as (x & Hx & Hin).
  assert (E : forall c, at_level c = Math_round (p * multiplier a x v c h)).
  { intros c. unfold at_level.
    destruct (App_number {| ageRange := a; state := s; vehicleType := v; coverageLevel := c;
              drivingHistory := h; currentPremium := p |} x Hx) as (_ & -> & _).
    reflexivity. }
  rewrite !E. apply nonneg_finite_fin in Hp.
  destruct (multiplier_coverage a x v h Hin) as [H1 H2].
  destruct (multiplier_exact a x v full h Hin) as (Ff & _ & Hf1).
  destruct (multiplier_exact a x v standard h Hin) as (Fs & _ & Hs1).
  destruct (multiplier_exact a x v minimum h Hin) as (Fm & _ & Hm1).
  rewrite leb_exact in H1, H2 by assumption. apply Z.leb_le in H1, H2.
  split; apply round_mul_mono; assumption.
Qed.

Lemma coverage_never_raises_estimate_witness :
  inherited "CA" = false /\ nonneg_finite 180 = true
  /\ (estimatedNewPremium (App {| ageRange := Age30_64; state := "CA"; vehicleType := sedan;
        coverageLevel := full; drivingHistory := clean; currentPremium := 180 |})
      <=? estimatedNewPremium (App initial_values))%float = true
  /\ (estimatedNewPremium (App initial_values)
      <=? estimatedNewPremium (App initial_values_minimum))%float = true.
Proof.
  split; [reflexivity|]. split; [reflexivity|].
  apply (coverage_never_raises_estimate Age30_64 "CA" sedan clean 180); reflexivity.
Defined.

(** For the initial driver, minimum coverage gives 180 and standard
    coverage 156: raising the coverage lowered the estimate. *)
Lemma coverage_lowers_estimate :
  estimatedNewPremium (App initial_values_minimum) = 180%float
  /\ estimatedNewPremium (App initial_values) = 156%float
  /\ ~ (estimatedNewPremium (App initial_values_minimum)
        <=? estimatedNewPremium (App initial_values))%float = true.
Proof.
  split; [reflexivity|]. split; [reflexivity|]. intros H. vm_compute in H. discriminate.
Qed.

(** C4, as amended.  For a 30-64 driver in WY with a sedan, minimum coverage,
    a clean record and a premium of 100: WY has no entry, the state factor is
    the default 1.00; the clean record contributes 0.85, so the risk
    adjustment is 0.85 and the baseline multiplier 0.5525; the quotient
    exceeds one and the multiplier is capped at 1.00; the estimate is 100 and
    the savings are 0. *)
Theorem wyoming_breakdown :
  own_property "WY" STATE_FACTOR = None
  /\ stateFactor (App wyoming_values) = JNumber 1.00
  /\ riskAdjustment (App wyoming_values) = 0.85%float
  /\ baselineMultiplier (App wyoming_values) = 0.5525%float
  /\ (1.0 <? 1.0 / baselineMultiplier (App wyoming_values) * 0.92)%float = true
  /\ savingsMultiplier (App wyoming_values) = 1.0%float
  /\ estimatedNewPremium (App wyoming_values) = 100%float
  /\ monthlySavings (App wyoming_values) = 0%float
  /\ annualSavings (App wyoming_values) = 0%float.
Proof. repeat split; reflexivity. Qed.

(** The risk adjustment there is not 1.00 and the baseline multiplier is not
    0.65: the history factor of a clean record is 0.85. *)
Lemma wyoming_not_unit_risk :
  ~ (riskAdjustment (App wyoming_values) = 1.00%float
     /\ baselineMultiplier (App wyoming_values) = 0.65%float).
Proof.
  intros [H _].
  apply (f_equal (fun z => (z =? 1.00)%float)) in H. vm_compute in H. discriminate.
Qed.



(** Outside the state codes.  ["constructor"] is not a key of the table
    either, but the read of line 33 finds the inherited function and the
    fallback is not taken: the breakdown for it is not the one of a state
    factor of 1.00, its multiplier is [NaN]. *)
Lemma constructor_is_not_default :
  own_property (state constructor_values) STATE_FACTOR = None
  /\ App constructor_values
     <> compute (AGE_FACTOR Age30_64) (JNumber 1.00) (VEHICLE_FACTOR sedan)
                (COVERAGE_FACTOR standard) (HISTORY_FACTOR clean) 180.
Proof.
  split; [reflexivity|]. intros H.
  apply (f_equal (fun b => is_nan (savingsMultiplier b))) in H.
  vm_compute in H. discriminate.
Qed.

(** C6, as amended.  For every input with an integer premium between 0 and
    2^49 (and a state that resolves to a number), the annual savings are
    exactly twelve times the monthly savings: the product is a double and
    nothing is rounded. *)
Theorem annual_is_twelve_monthly (i : SavingsInput) :
  inherited (state i) = false ->
  Number_isInteger (currentPremium i) = true ->
  (0 <=? currentPremium i)%float = true ->
  (currentPremium i <=? 562949953421312)%float = true ->
  annualSavings (App i) = (monthlySavings (App i) * 12)%float
  /\ exact (annualSavings (App i)) = 12 * exact (monthlySavings (App i)).
Proof.
  intros Hs Hint Hpos Hmax. split; [reflexivity|].
  destruct (resolve_state_number _ Hs) as (x & Hx & Hin).
  destruct (App_number i x Hx) as (_ & _ & -> & ->).
  set (p := currentPremium i) in *.
  set (sm := multiplier _ _ _ _ _).
  destruct (multiplier_exact (ageRange i) x (vehicleType i) (coverageLevel i)
              (drivingHistory i) Hin) as (Fsm & _ & Hsm1). fold sm in Fsm, Hsm1.
  destruct (isInteger_exact p Hint Hpos) as (Fp & N & HN0 & HN).
  assert (F49 : fin_nonneg (Prim2SF 562949953421312)) by reflexivity.
  rewrite leb_exact in Hmax by assumption. apply Z.leb_le in Hmax.
  change (exact 562949953421312) with (2 ^ 49 * 2 ^ 1074) in Hmax.
  assert (Hpw : 0 < 2 ^ 1074) by (apply pow2_pos; lia).
  assert (HN49 : N <= 2 ^ 49).
  { rewrite HN in Hmax. apply Z.mul_le_mono_pos_r in Hmax; assumption. }
  destruct (round_mul p sm Fp Fsm Hsm1) as [Fr _].
  destruct (round_mul_le_int p sm Fp Fsm Hsm1 N HN) as (n & Hn & En).
  assert (Hle : exact (Math_round (p * sm)) <= exact p).
  { rewrite En, HN. apply Z.mul_le_mono_nonneg_r; lia. }
  destruct (sub_exact p _ Fp Fr Hle) as [Fd Ed].
  destruct (Math_max_0 _ Fd) as [Fm Em].
  set (ms := Math_max 0 (p - Math_round (p * sm))) in *.
  assert (P49 : 2 ^ 49 = 562949953421312) by reflexivity.
  assert (P53 : 2 ^ 53 = 9007199254740992) by reflexivity.
  assert (Ems : exact ms = (N - n) * 2 ^ 1074).
  { rewrite Em, Ed, HN, En, <- Z.mul_sub_distr_r. apply RN0_int.
    clear - Hn HN49 P49 P53. lia. }
  assert (F12 : fin_nonneg (Prim2SF 12)) by reflexivity.
  destruct (mul_exact ms 12 Fm F12) as [_ Ea].
  rewrite Ea, Ems. change (exact 12) with (12 * 2 ^ 1074).
  rewrite RN1074_int by (clear - Hn HN49 P49 P53; lia).
  rewrite Z.min_l; [hide_big; ring|].
  apply Z.lt_le_incl. apply int_below_overflow. clear - Hn HN49 P49 P53. lia.
Qed.

Lemma annual_is_twelve_monthly_witness :
  inherited (state initial_values) = false
  /\ Number_isInteger (currentPremium initial_values) = true
  /\ (0 <=? currentPremium initial_values)%float = true
  /\ (currentPremium initial_values <=? 562949953421312)%float = true
  /\ annualSavings (App initial_values) = (monthlySavings (App initial_values) * 12)%float
  /\ exact (annualSavings (App initial_values)) = 12 * exact (monthlySavings (App initial_values)).
Proof.
  split; [reflexivity|]. split; [reflexivity|]. split; [reflexivity|]. split; [reflexivity|].
  apply (annual_is_twelve_monthly initial_values); reflexivity.
Defined.

(** At a premium of 10010000000000002 on the floor of the multiplier, the
    monthly savings are 3003000000000001 and the annual savings
    36036000000000016, which is not twelve times as much: the product
    36036000000000012 is not a double and is rounded. *)
Lemma annual_is_rounded :
  Number_isInteger 10010000000000002 = true
  /\ monthlySavings (App (high_risk_values 10010000000000002)) = 3003000000000001%float
  /\ annualSavings (App (high_risk_values 10010000000000002)) = 36036000000000016%float
  /\ exact (annualSavings (App (high_risk_values 10010000000000002)))
     <> 12 * exact (monthlySavings (App (high_risk_values 10010000000000002))).
Proof.
  split; [reflexivity|]. split; [reflexivity|]. split; [reflexivity|].
  intros H. apply Z.eqb_eq in H. vm_compute in H. discriminate.
Qed.

(** C7.  The initial values of the form: a 30-64 driver in CA with a sedan,
    standard coverage, a clean record and a premium of 180. *)
Theorem initial_breakdown :
  ageFactor (App initial_values) = 1.00%float
  /\ stateFactor (App initial_values) = JNumber 1.25
  /\ vehicleFactor (App initial_values) = 1.00%float
  /\ historyFactor (App initial_values) = 0.85%float
  /\ riskAdjustment (App initial_values) = 1.0625%float
  /\ coverageFactor (App initial_values) = 1.00%float
  /\ baselineMultiplier (App initial_values) = 1.0625%float
  /\ savingsMultiplier (App initial_values) = (0.92 / 1.0625)%float
  /\ savingsMultiplier (App initial_values) = (1.0 / 1.0625 * 0.92)%float
  /\ (0.70 <? savingsMultiplier (App initial_values))%float = true
  /\ (savingsMultiplier (App initial_values) <? 1.0)%float = true
  /\ (0.86585 <? savingsMultiplier (App initial_values))%float = true
  /\ (savingsMultiplier (App initial_values) <? 0.86595)%float = true
  /\ estimatedNewPremium (App initial_values) = 156%float
  /\ monthlySavings (App initial_values) = 24%float
  /\ annualSavings (App initial_values) = 288%float.
Proof. repeat split; reflexivity. Qed.

(** C8, as amended.  For every input with a non-negative integer premium
    (and a state that resolves to a number), the estimated new premium is at
    least [Math.round(currentPremium * 0.70)], seventy percent of the current
    premium rounded to an integer, and at most the current premium. *)
Theorem estimate_between (i : SavingsInput) :
  inherited (state i) = false ->
  Number_isInteger (currentPremium i) = true ->
  (0 <=? currentPremium i)%float = true ->
  (Math_round (currentPremium i * 0.70) <=? estimatedNewPremium (App i))%float = true
  /\ (estimatedNewPremium (App i) <=? currentPremium i)%float = true.
Proof.
  intros Hs Hint Hpos. destruct (resolve_state_number _ Hs) as (x & Hx & Hin).
  destruct (App_number i x Hx) as (_ & -> & _).
  set (p := currentPremium i) in *.
  set (sm := multiplier _ _ _ _ _).
  destruct (multiplier_exact (ageRange i) x (vehicleType i) (coverageLevel i)
              (drivingHistory i) Hin) as (Fsm & Hsm0 & Hsm1). fold sm in Fsm, Hsm0, Hsm1.
  destruct (isInteger_exact p Hint Hpos) as (Fp & N & HN0 & HN).
  split.
  - apply round_mul_mono; try assumption. reflexivity.
  - destruct (round_mul p sm Fp Fsm Hsm1) as [Fr _].
    destruct (round_mul_le_int p sm Fp Fsm Hsm1 N HN) as (n & Hn & En).
    rewrite leb_exact by assumption. apply Z.leb_le.
    rewrite En, HN. apply Z.mul_le_mono_nonneg_r; [apply Z.pow_nonneg|]; lia.
Qed.

Lemma estimate_between_witness :
  inherited (state (high_risk_values 300)) = false
  /\ Number_isInteger (currentPremium (high_risk_values 300)) = true
  /\ (0 <=? currentPremium (high_risk_values 300))%float = true
  /\ (Math_round (currentPremium (high_risk_values 300) * 0.70)
      <=? estimatedNewPremium (App (high_risk_values 300)))%float = true
  /\ (estimatedNewPremium (App (high_risk_values 300)) <=? currentPremium (high_risk_values 300))%float = true.
Proof.
  split; [reflexivity|]. split; [reflexivity|]. split; [reflexivity|].
  apply (estimate_between (high_risk_values 300)); reflexivity.
Defined.

(** At a premium of 52 on the floor of the multiplier the estimate is 36,
    less than seventy percent of 52, which is 36.4. *)
Lemma estimate_below_seventy_percent :
  Number_isInteger 52 = true
  /\ estimatedNewPremium (App (high_risk_values 52)) = 36%float
  /\ ~ (7 * exact (currentPremium (high_risk_values 52))
        <= 10 * exact (estimatedNewPremium (App (high_risk_values 52)))).
Proof.
  split; [reflexivity|]. split; [reflexivity|].
  intros H. apply Z.leb_le in H. vm_compute in H. discriminate.
Qed.

(** The form stores 0 when the entry does not parse. *)
Lemma entered_premium_nan : entered_premium nan = 0%float.
Proof. reflexivity. Qed.

(** C9.  With a current premium of 0 and any values of the other fields (the
    state resolving to a number), the estimated new premium, the monthly
    savings and the annual savings are 0. *)
Theorem zero_premium (i : SavingsInput) :
  inherited (state i) = false ->
  currentPremium i = 0%float ->
  estimatedNewPremium (App i) = 0%float
  /\ monthlySavings (App i) = 0%float
  /\ annualSavings (App i) = 0%float.
Proof.
  intros Hs Hp. destruct (resolve_state_number _ Hs) as (x & Hx & Hin).
  destruct (App_number i x Hx) as (_ & -> & -> & ->).
  rewrite Hp, zero_times_multiplier by exact Hin.
  repeat split; reflexivity.
Qed.

Lemma zero_premium_witness :
  inherited "TX" = false
  /\ estimatedNewPremium (App {| ageRange := Age75plus; state := "TX"; vehicleType := luxury;
       coverageLevel := full; drivingHistory := minor; currentPremium := entered_premium nan |})
     = 0%float
  /\ monthlySavings (App {| ageRange := Age75plus; state := "TX"; vehicleType := luxury;
       coverageLevel := full; drivingHistory := minor; currentPremium := entered_premium nan |})
     = 0%float
  /\ annualSavings (App {| ageRange := Age75plus; state := "TX"; vehicleType := luxury;
       coverageLevel := full; drivingHistory := minor; currentPremium := entered_premium nan |})
     = 0%float.
Proof.
  split; [reflexivity|].
  apply (zero_premium {| ageRange := Age75plus; state := "TX"; vehicleType := luxury;
       coverageLevel := full; drivingHistory := minor; currentPremium := entered_premium nan |});
    reflexivity.
Defined.

Lemma Math_round_away_nonneg y :
  nonneg (Prim2SF y) -> Math_round y = Math_round_away y.
Proof.
  intros Hy. unfold Math_round, Math_round_away.
  destruct (Prim2SF y) as [s|s| |s m e]; try reflexivity.
  cbn [nonneg] in Hy. subst s.
  destruct e; reflexivity.
Qed.

(** On a negative tie the two conventions part: [Math.round(-2.5)] is [-2]. *)
Lemma Math_round_negative_tie :
  Math_round (-2.5) = (-2)%float /\ Math_round_away (-2.5) = (-3)%float.
Proof. split; reflexivity. Qed.

Lemma floor_half_up_spec X :
  2 * X - 2 ^ 1074 < 2 * (floor_half_up X * 2 ^ 1074) <= 2 * X + 2 ^ 1074.
Proof.
  unfold floor_half_up.
  assert (Hp : 0 < 2 ^ 1075) by (apply pow2_pos; lia).
  pose proof (Z.div_mod (2 * X + 2 ^ 1074) (2 ^ 1075) ltac:(lia)) as Hdm.
  pose proof (Z.mod_pos_bound (2 * X + 2 ^ 1074) (2 ^ 1075) Hp) as Hb.
  change (2 ^ 1075) with (2 * 2 ^ 1074) in *. hide_big. lia.
Qed.

(** C10.  The estimated new premium is [Math.round] of the product: the
    integer nearest to it, the upper one at a tie.  The product of a
    non-negative finite premium with the multiplier is not negative, and
    there the result is the same as with ties away from zero. *)
Theorem rounding_convention (i : SavingsInput) :
  inherited (state i) = false ->
  nonneg_finite (currentPremium i) = true ->
  let y := (currentPremium i * savingsMultiplier (App i))%float in
  estimatedNewPremium (App i) = Math_round y
  /\ nonneg (Prim2SF y)
  /\ Math_round y = Math_round_away y
  /\ exists n : Z,
       exact (estimatedNewPremium (App i)) = n * 2 ^ 1074
       /\ 2 * exact y - 2 ^ 1074 < 2 * (n * 2 ^ 1074) <= 2 * exact y + 2 ^ 1074.
Proof.
  intros Hs Hp y. destruct (resolve_state_number _ Hs) as (x & Hx & Hin).
  assert (Ey : estimatedNewPremium (App i) = Math_round y) by reflexivity.
  rewrite Ey. unfold y. clear Ey y.
  destruct (App_number i x Hx) as (-> & _).
  set (p := currentPremium i) in *.
  set (sm := multiplier _ _ _ _ _).
  destruct (multiplier_exact (ageRange i) x (vehicleType i) (coverageLevel i)
              (drivingHistory i) Hin) as (Fsm & _ & Hsm1). fold sm in Fsm, Hsm1.
  apply nonneg_finite_fin in Hp.
  destruct (mul_le_one p sm Hp Fsm Hsm1) as (Fy & _ & _).
  destruct (round_mul p sm Hp Fsm Hsm1) as [_ Er].
  split; [reflexivity|].
  split; [apply fin_nonneg_nonneg; exact Fy|].
  split; [apply Math_round_away_nonneg, fin_nonneg_nonneg; exact Fy|].
  exists (floor_half_up (exact (p * sm))). split; [exact Er|].
  apply floor_half_up_spec.
Qed.

Lemma rounding_convention_witness :
  inherited (state initial_values) = false
  /\ nonneg_finite (currentPremium initial_values) = true
  /\ estimatedNewPremium (App initial_values)
     = Math_round (currentPremium initial_values * savingsMultiplier (App initial_values))
  /\ Math_round (currentPremium initial_values * savingsMultiplier (App initial_values))
     = Math_round_away (currentPremium initial_values * savingsMultiplier (App initial_values)).
Proof.
  split; [reflexivity|]. split; [reflexivity|].
  destruct (rounding_convention initial_values) as (H1 & _ & H2 & _); try reflexivity.
  split; assumption.
Defined.

(** * Beyond the table: numbers that are not [NaN]

    The properties above take the factors from the tables and a premium
    that is a non-negative integer.  What follows looks at the same lines
    on other inputs: factors of any value, premiums that are negative,
    fractional or infinite, strings that no select offers. *)

Lemma shr_1_keeps_nonneg mrs : 0 <= shr_m mrs -> 0 <= shr_m (shr_1 mrs).
Proof.
  destruct mrs as [m r s]. cbn [shr_m]. intros Hm.
  rewrite shr_1_nonneg by assumption. cbn [shr_m].
  apply Z.div_pos; lia.
Qed.

Lemma shr_keeps_nonneg mrs e n : 0 <= shr_m mrs -> 0 <= shr_m (fst (shr mrs e n)).
Proof.
  intros Hm. destruct n as [|p|p]; cbn [shr fst]; try assumption.
  rewrite iter_pos_nat. induction (Pos.to_nat p) as [|k IH]; [exact Hm|].
  rewrite Nat.iter_succ. apply shr_1_keeps_nonneg, IH.
Qed.

Lemma round_nearest_even_nonneg m l : 0 <= m -> 0 <= round_nearest_even m l.
Proof.
  intros Hm. destruct l as [|[| |]]; cbn [round_nearest_even];
    try destruct (Z.even m); lia.
Qed.

Lemma shr_record_of_loc_m m l : shr_m (shr_record_of_loc m l) = m.
Proof. destruct l as [|[| |]]; reflexivity. Qed.

(** The rounding step yields a zero, a finite number or an infinity of the
    sign it was given, never [NaN]. *)
Lemma binary_round_aux_sign sx mx ex lx :
  0 <= mx ->
  match binary_round_aux prec emax sx mx ex lx with
  | S754_zero s | S754_infinity s | S754_finite s _ _ => s = sx
  | S754_nan => False
  end.
Proof.
  intros Hm. unfold binary_round_aux, shr_fexp.
  pose proof (shr_keeps_nonneg (shr_record_of_loc mx lx) ex
                (fexp prec emax (Zdigits2 mx + ex) - ex)) as H1.
  rewrite shr_record_of_loc_m in H1. specialize (H1 Hm).
  destruct (shr (shr_record_of_loc mx lx) ex _) as [mrs1 e1]. cbn [fst] in H1.
  set (m1 := round_nearest_even (shr_m mrs1) (loc_of_shr_record mrs1)).
  assert (Hm1 : 0 <= m1) by (apply round_nearest_even_nonneg; exact H1).
  pose proof (shr_keeps_nonneg (shr_record_of_loc m1 loc_Exact) e1
                (fexp prec emax (Zdigits2 m1 + e1) - e1)) as H2.
  rewrite shr_record_of_loc_m in H2. specialize (H2 Hm1).
  destruct (shr (shr_record_of_loc m1 loc_Exact) e1 _) as [mrs2 e2]. cbn [fst] in H2.
  destruct (shr_m mrs2) as [|q|q]; [reflexivity | | lia].
  destruct (e2 <=? emax - prec); reflexivity.
Qed.

Lemma binary_round_sign sx mx ex :
  match binary_round prec emax sx mx ex with
  | S754_zero s | S754_infinity s | S754_finite s _ _ => s = sx
  | S754_nan => False
  end.
Proof.
  unfold binary_round. destruct (shl_align mx ex _) as [mz ez].
  apply binary_round_aux_sign. lia.
Qed.

Lemma sign_not_nan (x : spec_float) sx :
  match x with
  | S754_zero s | S754_infinity s | S754_finite s _ _ => s = sx
  | S754_nan => False
  end -> not_nan x.
Proof. destruct x; cbn; tauto. Qed.

Lemma SFmul_not_nan x y m e s :
  not_nan x -> y = S754_finite s m e -> not_nan (SFmul prec emax x y).
Proof.
  intros Hx ->. destruct x as [sx|sx| |sx mx ex]; cbn [SFmul not_nan] in *;
    try exact I; try contradiction.
  eapply sign_not_nan. apply binary_round_aux_sign. lia.
Qed.

Lemma SFdiv_core_nonneg m1 e1 m2 e2 :
  0 < m1 -> 0 < m2 ->
  0 <= fst (fst (SFdiv_core_binary prec emax m1 e1 m2 e2)).
Proof.
  intros H1 H2. unfold SFdiv_core_binary.
  set (s := _ - _ - _).
  set (m' := match s with Z.pos _ => Z.shiftl m1 s | 0 => m1 | Z.neg _ => 0 end).
  assert (Hm' : 0 <= m').
  { unfold m'. destruct s; try lia. apply Z.shiftl_nonneg. lia. }
  pose proof (Z_div_mod m' m2 ltac:(lia)) as Hd.
  destruct (Z.div_eucl m' m2) as [q r]. cbn [fst].
  destruct Hd as [Hq Hr]. nia.
Qed.

Lemma SFdiv_not_nan x y m e s :
  x = S754_finite s m e -> not_nan y -> not_nan (SFdiv prec emax x y).
Proof.
  intros -> Hy. destruct y as [sy|sy| |sy my ey]; cbn [SFdiv not_nan] in *;
    try exact I; try contradiction.
  pose proof (SFdiv_core_nonneg (Z.pos m) e (Z.pos my) ey ltac:(lia) ltac:(lia)) as Hq.
  destruct (SFdiv_core_binary prec emax (Z.pos m) e (Z.pos my) ey) as [[mz ez] lz].
  cbn [fst] in Hq.
  eapply sign_not_nan. apply binary_round_aux_sign. exact Hq.
Qed.

Lemma SFcompare_refl x : not_nan x -> SFcompare x x = Some Eq.
Proof.
  destruct x as [s|[|]| |[|] m e]; cbn; try tauto; intros _;
    rewrite Z.compare_refl, Pos.compare_cont_refl; reflexivity.
Qed.

Lemma is_nan_spec x : is_nan x = false <-> not_nan (Prim2SF x).
Proof.
  unfold is_nan. rewrite eqb_spec. unfold SFeqb. split.
  - destruct (Prim2SF x); cbn; try tauto. discriminate.
  - intros H. rewrite SFcompare_refl by assumption. reflexivity.
Qed.

Lemma is_nan_true x : is_nan x = true <-> Prim2SF x = S754_nan.
Proof.
  split.
  - intros H. destruct (Prim2SF x) eqn:E; try reflexivity;
      assert (Hn : is_nan x = false) by (apply is_nan_spec; rewrite E; exact I);
      congruence.
  - intros H. destruct (is_nan x) eqn:E; [reflexivity|].
    apply is_nan_spec in E. rewrite H in E. contradiction.
Qed.

(** ** The order of the doubles that are not [NaN] *)

Lemma SFcompare_antisym x y : SFcompare y x = option_map CompOpp (SFcompare x y).
Proof.
  destruct x as [s|[|]| |[|] m e], y as [t|[|]| |[|] n f]; try destruct s; try destruct t;
    try reflexivity; cbn [SFcompare option_map]; f_equal;
    rewrite (Z.compare_antisym e f); destruct (e ?= f); cbn [CompOpp]; try reflexivity.
  - f_equal. rewrite Pos.compare_cont_antisym. reflexivity.
  - rewrite Pos.compare_cont_antisym. reflexivity.
Qed.

Lemma SFcompare_not_nan x y :
  not_nan x -> not_nan y -> exists c, SFcompare x y = Some c.
Proof.
  destruct x, y; cbn [not_nan SFcompare]; try tauto; intros _ _; eexists; reflexivity.
Qed.

Lemma ltb_leb (x y : float) : (x <? y)%float = true -> (x <=? y)%float = true.
Proof.
  rewrite ltb_spec, leb_spec. unfold SFltb, SFleb.
  destruct (SFcompare (Prim2SF x) (Prim2SF y)) as [[| |]|]; congruence.
Qed.

Lemma not_ltb_leb (x y : float) :
  is_nan x = false -> is_nan y = false ->
  (x <? y)%float = false -> (y <=? x)%float = true.
Proof.
  intros Hx Hy. apply is_nan_spec in Hx, Hy.
  rewrite ltb_spec, leb_spec. unfold SFltb, SFleb.
  rewrite (SFcompare_antisym (Prim2SF x) (Prim2SF y)).
  destruct (SFcompare_not_nan _ _ Hx Hy) as [c ->].
  destruct c; cbn; congruence.
Qed.

(** [Math.min] and [Math.max] return one of their arguments when neither
    is [NaN], and [NaN] otherwise. *)
Lemma Math_min_cases (a b : float) :
  is_nan a = false -> is_nan b = false ->
  Math_min a b = a /\ (a <=? b)%float = true \/
  Math_min a b = b /\ (b <=? a)%float = true.
Proof.
  intros Ha Hb. unfold Math_min. rewrite Ha, Hb. cbn [orb].
  destruct (a <? b)%float eqn:Hab; [left; auto using ltb_leb|].
  destruct (b <? a)%float eqn:Hba; [right; auto using ltb_leb|].
  destruct (get_sign a); [left | right]; auto using not_ltb_leb.
Qed.

Lemma Math_max_cases (a b : float) :
  is_nan a = false -> is_nan b = false ->
  Math_max a b = a /\ (b <=? a)%float = true \/
  Math_max a b = b /\ (a <=? b)%float = true.
Proof.
  intros Ha Hb. unfold Math_max. rewrite Ha, Hb. cbn [orb].
  destruct (a <? b)%float eqn:Hab; [right; auto using ltb_leb|].
  destruct (b <? a)%float eqn:Hba; [left; auto using ltb_leb|].
  destruct (get_sign a); [right | left]; auto using not_ltb_leb.
Qed.

Lemma Math_min_nan (a b : float) : is_nan b = true -> Math_min a b = nan.
Proof. intros Hb. unfold Math_min. rewrite Hb, orb_true_r. reflexivity. Qed.

Lemma Math_max_nan (a b : float) : is_nan b = true -> Math_max a b = nan.
Proof. intros Hb. unfold Math_max. rewrite Hb, orb_true_r. reflexivity. Qed.

Lemma Math_max_is_nan (a b : float) :
  is_nan (Math_max a b) = is_nan a || is_nan b.
Proof.
  destruct (is_nan a) eqn:Ha; [unfold Math_max; rewrite Ha; reflexivity|].
  destruct (is_nan b) eqn:Hb; [unfold Math_max; rewrite Ha, Hb; reflexivity|].
  destruct (Math_max_cases a b Ha Hb) as [[-> _]|[-> _]]; assumption.
Qed.

(** The clamp of line 40 on any number. *)
Lemma clamp_range (y : float) :
  is_nan y = false ->
  (0.70 <=? Math_max 0.70 (Math_min 1.0 y))%float = true
  /\ (Math_max 0.70 (Math_min 1.0 y) <=? 1.0)%float = true.
Proof.
  intros Hy.
  assert (H1 : is_nan 1.0 = false) by reflexivity.
  assert (H7 : is_nan 0.70 = false) by reflexivity.
  destruct (Math_min_cases 1.0 y H1 Hy) as [[Hm Hle]|[Hm Hle]].
  - rewrite Hm. split; reflexivity.
  - rewrite Hm.
    destruct (Math_max_cases 0.70 y H7 Hy) as [[HM Hle']|[HM Hle']]; rewrite HM.
    + split; reflexivity.
    + split; assumption.
Qed.

(** ** Where [NaN] enters and where it goes *)

Lemma div_one_is_nan (b : float) : is_nan (1.0 / b) = is_nan b.
Proof.
  destruct (is_nan b) eqn:Hb.
  - apply is_nan_true in Hb. apply is_nan_true.
    rewrite div_spec, Hb. reflexivity.
  - apply is_nan_spec in Hb. apply is_nan_spec. rewrite div_spec.
    eapply SFdiv_not_nan; [reflexivity | exact Hb].
Qed.

Lemma mul_const_is_nan (x c : float) s m e :
  Prim2SF c = S754_finite s m e -> is_nan (x * c) = is_nan x.
Proof.
  intros Hc. destruct (is_nan x) eqn:Hx.
  - apply is_nan_true in Hx. apply is_nan_true.
    rewrite mul_spec, Hx. reflexivity.
  - apply is_nan_spec in Hx. apply is_nan_spec. rewrite mul_spec.
    eapply SFmul_not_nan; [exact Hx | exact Hc].
Qed.

Lemma mul_nan_l (x y : float) : is_nan x = true -> is_nan (x * y) = true.
Proof.
  intros Hx. apply is_nan_true in Hx. apply is_nan_true.
  rewrite mul_spec, Hx. reflexivity.
Qed.

Lemma mul_nan_r (x y : float) : is_nan y = true -> is_nan (x * y) = true.
Proof.
  intros Hy. apply is_nan_true in Hy. apply is_nan_true.
  rewrite mul_spec, Hy. destruct (Prim2SF x); reflexivity.
Qed.

Lemma sub_nan_r (x y : float) : is_nan y = true -> is_nan (x - y) = true.
Proof.
  intros Hy. apply is_nan_true in Hy. apply is_nan_true.
  rewrite sub_spec, Hy. destruct (Prim2SF x); reflexivity.
Qed.

Lemma Math_round_nan (x : float) : is_nan x = true -> Math_round x = x.
Proof.
  intros Hx. apply is_nan_true in Hx. unfold Math_round. rewrite Hx. reflexivity.
Qed.

(** A baseline multiplier that is [NaN] makes every later constant [NaN]. *)
Lemma compute_nan (ageFactor : float) (stateFactor : jsval)
    (vehicleFactor coverageFactor historyFactor currentPremium : float) :
  is_nan (baselineMultiplier (compute ageFactor stateFactor vehicleFactor coverageFactor
                                      historyFactor currentPremium)) = true ->
  is_nan (savingsMultiplier (compute ageFactor stateFactor vehicleFactor coverageFactor
                                     historyFactor currentPremium)) = true
  /\ is_nan (estimatedNewPremium (compute ageFactor stateFactor vehicleFactor coverageFactor
                                          historyFactor currentPremium)) = true
  /\ is_nan (monthlySavings (compute ageFactor stateFactor vehicleFactor coverageFactor
                                     historyFactor currentPremium)) = true
  /\ is_nan (annualSavings (compute ageFactor stateFactor vehicleFactor coverageFactor
                                    historyFactor currentPremium)) = true.
Proof.
  intros Hb.
  cbn [compute savingsMultiplier baselineMultiplier estimatedNewPremium
       monthlySavings annualSavings] in *.
  set (base := (ageFactor * ToNumber stateFactor * vehicleFactor * historyFactor
                * coverageFactor)%float) in *.
  assert (Hy : is_nan (1.0 / base * 0.92) = true).
  { rewrite (mul_const_is_nan _ 0.92 _ _ _ eq_refl), div_one_is_nan. exact Hb. }
  rewrite (Math_min_nan _ _ Hy). change (Math_max 0.70 nan) with nan.
  assert (Hm : is_nan (currentPremium * nan) = true) by (apply mul_nan_r; reflexivity).
  rewrite (Math_round_nan _ Hm).
  assert (Hs : is_nan (currentPremium - currentPremium * nan) = true)
    by (apply sub_nan_r; exact Hm).
  rewrite (Math_max_nan _ _ Hs).
  repeat split; try reflexivity. exact Hm.
Qed.

(** X1.  Line 40 clamps whatever it is given: for factors and a premium of
    any value (zero, negative, infinite, far outside the tables), as long
    as the baseline multiplier is not [NaN], the savings multiplier lies in
    [0.70, 1.00]. *)
Theorem clamp_any_factors (ageFactor : float) (stateFactor : jsval)
    (vehicleFactor coverageFactor historyFactor currentPremium : float) :
  is_nan (baselineMultiplier (compute ageFactor stateFactor vehicleFactor coverageFactor
                                      historyFactor currentPremium)) = false ->
  (0.70 <=? savingsMultiplier (compute ageFactor stateFactor vehicleFactor coverageFactor
                                       historyFactor currentPremium))%float = true
  /\ (savingsMultiplier (compute ageFactor stateFactor vehicleFactor coverageFactor
                                 historyFactor currentPremium) <=? 1.0)%float = true.
Proof.
  intros Hb. cbn [compute savingsMultiplier baselineMultiplier] in *.
  apply clamp_range.
  rewrite (mul_const_is_nan _ 0.92 _ _ _ eq_refl), div_one_is_nan. exact Hb.
Qed.

Lemma clamp_any_factors_witness :
  is_nan (baselineMultiplier (compute (-3) (JNumber infinity) 0.5 2 1 100)) = false
  /\ (0.70 <=? savingsMultiplier (compute (-3) (JNumber infinity) 0.5 2 1 100))%float = true
  /\ (savingsMultiplier (compute (-3) (JNumber infinity) 0.5 2 1 100) <=? 1.0)%float = true.
Proof.
  split; [reflexivity|].
  apply (clamp_any_factors (-3) (JNumber infinity) 0.5 2 1 100). reflexivity.
Defined.

(** X2.  The clamp does not stop [NaN]: when the baseline multiplier is
    [NaN] (a factor read as [undefined] or as a function, or [0 * Infinity]),
    the savings multiplier, the estimated premium and both savings are
    [NaN], whatever the premium. *)
Theorem nan_baseline_poisons_outputs (ageFactor : float) (stateFactor : jsval)
    (vehicleFactor coverageFactor historyFactor currentPremium : float) :
  is_nan (baselineMultiplier (compute ageFactor stateFactor vehicleFactor coverageFactor
                                      historyFactor currentPremium)) = true ->
  is_nan (savingsMultiplier (compute ageFactor stateFactor vehicleFactor coverageFactor
                                     historyFactor currentPremium)) = true
  /\ is_nan (estimatedNewPremium (compute ageFactor stateFactor vehicleFactor coverageFactor
                                          historyFactor currentPremium)) = true
  /\ is_nan (monthlySavings (compute ageFactor stateFactor vehicleFactor coverageFactor
                                     historyFactor currentPremium)) = true
  /\ is_nan (annualSavings (compute ageFactor stateFactor vehicleFactor coverageFactor
                                    historyFactor currentPremium)) = true.
Proof. apply compute_nan. Qed.

Lemma nan_baseline_poisons_outputs_witness :
  is_nan (baselineMultiplier (compute 0 (JNumber infinity) 1 1 1 180)) = true
  /\ is_nan (monthlySavings (compute 0 (JNumber infinity) 1 1 1 180)) = true.
Proof.
  split; [reflexivity|].
  apply (nan_baseline_poisons_outputs 0 (JNumber infinity) 1 1 1 180). reflexivity.
Defined.

(** * A premium of any value *)

Lemma is_infinity_spec x :
  is_infinity x = match Prim2SF x with S754_infinity _ => true | _ => false end.
Proof.
  unfold is_infinity. rewrite eqb_spec, abs_spec, Prim2SF_infinity.
  destruct (Prim2SF x) as [s|s| |s m e]; reflexivity.
Qed.

Lemma is_finite_spec x :
  is_finite x = match Prim2SF x with S754_zero _ | S754_finite _ _ _ => true | _ => false end.
Proof.
  unfold is_finite. rewrite is_infinity_spec.
  destruct (is_nan x) eqn:Hn.
  - apply is_nan_true in Hn. rewrite Hn. reflexivity.
  - apply is_nan_spec in Hn. destruct (Prim2SF x); cbn in *; tauto || reflexivity.
Qed.

Lemma of_Z_not_nan n : is_nan (of_Z n) = false.
Proof.
  apply is_nan_spec. destruct n as [|q|q]; cbn [of_Z]; [exact I| |].
  - rewrite of_uint63_spec. unfold binary_normalize.
    destruct (Uint63.to_Z _); [exact I| |]; eapply sign_not_nan, binary_round_sign.
  - rewrite opp_spec, of_uint63_spec. unfold binary_normalize.
    destruct (Uint63.to_Z _) as [|p|p]; [exact I| |].
    + pose proof (binary_round_sign false p 0) as H.
      destruct (binary_round prec emax false p 0); cbn in *; tauto.
    + pose proof (binary_round_sign true p 0) as H.
      destruct (binary_round prec emax true p 0); cbn in *; tauto.
Qed.

(** [Math.round] keeps [NaN] and makes none. *)
Lemma Math_round_is_nan x : is_nan (Math_round x) = is_nan x.
Proof.
  unfold Math_round. destruct (Prim2SF x) as [s|s| |s m e] eqn:E; try reflexivity.
  destruct (0 <=? e); [reflexivity|].
  assert (Hx : is_nan x = false) by (apply is_nan_spec; rewrite E; exact I).
  rewrite Hx. destruct (round_half_up s m e =? 0).
  - destruct s; reflexivity.
  - apply of_Z_not_nan.
Qed.

(** A difference whose first operand is finite is [NaN] only when the
    second is. *)
Lemma sub_is_nan_finite x y :
  is_finite x = true -> is_nan (x - y) = is_nan y.
Proof.
  rewrite is_finite_spec. intros Hx.
  destruct (is_nan y) eqn:Hy.
  - apply sub_nan_r. exact Hy.
  - apply is_nan_spec in Hy. apply is_nan_spec. rewrite sub_spec. unfold SF64sub.
    destruct (Prim2SF x) as [sx|sx| |sx mx ex]; try discriminate;
      destruct (Prim2SF y) as [sy|sy| |sy my ey]; cbn [not_nan SFsub] in *;
      try exact I; try contradiction.
    + destruct sx, sy; exact I.
    + match goal with |- not_nan (binary_normalize _ _ ?d _ _) => destruct d end;
        [exact I| |]; eapply sign_not_nan, binary_round_sign.
Qed.

Lemma positive_finite x :
  fin_nonneg (Prim2SF x) -> 0 < exact x -> exists m e, Prim2SF x = S754_finite false m e.
Proof.
  unfold exact. destruct (Prim2SF x) as [s|s| |s m e]; cbn [fin_nonneg scaled];
    try tauto; try lia.
  intros -> _. eauto.
Qed.

Lemma multiplier_finite a x v c h :
  In x (map snd STATE_FACTOR) ->
  exists m e, Prim2SF (multiplier a x v c h) = S754_finite false m e.
Proof.
  intros Hin. destruct (multiplier_exact a x v c h Hin) as (F & Hlo & _).
  apply positive_finite; [exact F|].
  eapply Z.lt_le_trans; [|exact Hlo]. reflexivity.
Qed.

(** The product of an infinite premium and the multiplier is that infinity,
    [Math.round] leaves it, and [Infinity - Infinity] is [NaN]. *)
Lemma infinite_premium_nan p s m e :
  Prim2SF s = S754_finite false m e ->
  is_infinity p = true ->
  is_nan (p - Math_round (p * s)) = true.
Proof.
  intros Hs. rewrite is_infinity_spec. intros Hp.
  destruct (Prim2SF p) as [| sp | |] eqn:E; try discriminate.
  assert (Hm : Prim2SF (p * s) = S754_infinity sp).
  { rewrite mul_spec, E, Hs. cbn. destruct sp; reflexivity. }
  assert (Hr : Math_round (p * s) = (p * s)%float).
  { unfold Math_round. rewrite Hm. reflexivity. }
  apply is_nan_true. rewrite Hr, sub_spec, Hm, E. destruct sp; reflexivity.
Qed.

Lemma savings_is_nan p s m e :
  Prim2SF s = S754_finite false m e ->
  is_nan (Math_max 0 (p - Math_round (p * s))) = negb (is_finite p).
Proof.
  intros Hs. rewrite Math_max_is_nan. change (is_nan 0) with false. cbn [orb].
  destruct (is_finite p) eqn:Hf.
  - rewrite sub_is_nan_finite by assumption.
    rewrite Math_round_is_nan, (mul_const_is_nan _ s _ _ _ Hs).
    rewrite is_finite_spec in Hf. apply is_nan_spec.
    destruct (Prim2SF p); try discriminate; exact I.
  - cbn [negb]. unfold is_finite in Hf. apply negb_false_iff, orb_true_iff in Hf.
    destruct Hf as [Hn|Hi].
    + apply sub_nan_r. rewrite Math_round_is_nan.
      rewrite (mul_const_is_nan _ s _ _ _ Hs). exact Hn.
    + eapply infinite_premium_nan; eassumption.
Qed.

Lemma leb_0_nonneg x : (0 <=? x)%float = true <-> nonneg (Prim2SF x).
Proof.
  rewrite leb_spec, Prim2SF_zero.
  destruct (Prim2SF x) as [s|[|]| |[|] m e]; cbn; intuition congruence.
Qed.

Lemma mul_nonneg x c m e :
  Prim2SF c = S754_finite false m e ->
  (0 <=? x)%float = true -> (0 <=? x * c)%float = true.
Proof.
  intros Hc. rewrite !leb_0_nonneg, mul_spec, Hc. unfold SF64mul.
  destruct (Prim2SF x) as [s|s| |s mx ex]; cbn [nonneg SFmul]; try tauto.
  - intros ->. reflexivity.
  - intros ->. cbn [xorb].
    pose proof (binary_round_aux_sign false (Z.pos (mx * m)) (ex + e) loc_Exact ltac:(lia)) as H.
    destruct (binary_round_aux _ _ _ _ _ _); cbn in *; tauto.
Qed.

Lemma Math_max_0_nonneg v :
  is_nan v = false -> (0 <=? Math_max 0 v)%float = true.
Proof.
  intros Hv. destruct (Math_max_cases 0 v eq_refl Hv) as [[-> _]|[-> H]];
    [reflexivity | exact H].
Qed.

(** X3.  With a state that resolves to a number, the monthly and the annual
    savings are [NaN] exactly when the premium is not finite: an infinite
    premium gives [Infinity - Infinity] at line 43, and every finite
    premium, negative or fractional ones included, gives a number. *)
Theorem savings_nan_iff_premium_not_finite (i : SavingsInput) :
  inherited (state i) = false ->
  is_nan (monthlySavings (App i)) = negb (is_finite (currentPremium i))
  /\ is_nan (annualSavings (App i)) = negb (is_finite (currentPremium i)).
Proof.
  intros Hs. destruct (resolve_state_number _ Hs) as (x & Hx & Hin).
  destruct (App_number i x Hx) as (_ & _ & -> & ->).
  destruct (multiplier_finite (ageRange i) x (vehicleType i) (coverageLevel i)
              (drivingHistory i) Hin) as (m & e & Hsm).
  rewrite (mul_const_is_nan _ 12 _ _ _ eq_refl).
  split; eapply savings_is_nan; exact Hsm.
Qed.

Lemma savings_nan_iff_premium_not_finite_witness :
  inherited (state (high_risk_values infinity)) = false
  /\ is_nan (monthlySavings (App (high_risk_values infinity))) = true
  /\ is_nan (monthlySavings (App (high_risk_values (-0.5)))) = false.
Proof.
  split; [reflexivity|]. split.
  - apply (savings_nan_iff_premium_not_finite (high_risk_values infinity)). reflexivity.
  - apply (savings_nan_iff_premium_not_finite (high_risk_values (-0.5))). reflexivity.
Defined.

(** X4.  [Math.max(0, ...)] at line 43 does its work for every finite
    premium, not only the non-negative integers: the monthly and the annual
    savings are never below zero (the annual savings may be [Infinity]). *)
Theorem savings_nonneg_any_finite_premium (i : SavingsInput) :
  inherited (state i) = false ->
  is_finite (currentPremium i) = true ->
  (0 <=? monthlySavings (App i))%float = true
  /\ (0 <=? annualSavings (App i))%float = true.
Proof.
  intros Hs Hf. destruct (resolve_state_number _ Hs) as (x & Hx & Hin).
  destruct (App_number i x Hx) as (_ & _ & -> & ->).
  destruct (multiplier_finite (ageRange i) x (vehicleType i) (coverageLevel i)
              (drivingHistory i) Hin) as (m & e & Hsm).
  pose proof (savings_is_nan (currentPremium i) _ m e Hsm) as Hn.
  rewrite Hf, Math_max_is_nan in Hn. cbn [negb] in Hn.
  apply orb_false_iff in Hn. destruct Hn as [_ Hn].
  pose proof (Math_max_0_nonneg _ Hn) as H0.
  split; [exact H0|].
  eapply mul_nonneg; [reflexivity | exact H0].
Qed.

Lemma savings_nonneg_any_finite_premium_witness :
  inherited (state (high_risk_values (-0.6))) = false
  /\ is_finite (-0.6) = true
  /\ (0 <=? monthlySavings (App (high_risk_values (-0.6))))%float = true
  /\ (0 <=? annualSavings (App (high_risk_values (-0.6))))%float = true.
Proof.
  split; [reflexivity|]. split; [reflexivity|].
  apply (savings_nonneg_any_finite_premium (high_risk_values (-0.6))); reflexivity.
Defined.

(** * The estimate and the savings on integer premiums *)

Lemma mul_mono_l p q s :
  fin_nonneg (Prim2SF p) -> fin_nonneg (Prim2SF q) -> fin_nonneg (Prim2SF s) ->
  exact p <= exact q -> exact s <= 2 ^ 1074 ->
  exact (p * s) <= exact (q * s).
Proof.
  intros Hp Hq Hs Hpq Hs1.
  destruct (mul_le_one p s Hp Hs Hs1) as (_ & Ep & _).
  destruct (mul_le_one q s Hq Hs Hs1) as (_ & Eq & _).
  rewrite Ep, Eq.
  pose proof (exact_bounds p Hp) as [Hp0 _].
  pose proof (exact_bounds s Hs) as [Hs0 _].
  apply RN_mono; [lia|]. split; [apply Z.mul_nonneg_nonneg; assumption|].
  apply Z.mul_le_mono_nonneg_r; assumption.
Qed.

Lemma round_mul_mono_l p q s :
  fin_nonneg (Prim2SF p) -> fin_nonneg (Prim2SF q) -> fin_nonneg (Prim2SF s) ->
  exact p <= exact q -> exact s <= 2 ^ 1074 ->
  (Math_round (p * s) <=? Math_round (q * s))%float = true.
Proof.
  intros Hp Hq Hs Hpq Hs1.
  destruct (round_mul p s Hp Hs Hs1) as [Fp Ep].
  destruct (round_mul q s Hq Hs Hs1) as [Fq Eq].
  rewrite leb_exact by assumption. apply Z.leb_le. rewrite Ep, Eq.
  apply Z.mul_le_mono_nonneg_r; [apply Z.pow_nonneg; lia|].
  apply floor_half_up_mono. apply mul_mono_l; assumption.
Qed.

(** X5.  A higher premium never gives a lower estimate: changing only the
    premium of a form state, from one non-negative finite number to a
    larger one, does not lower [estimatedNewPremium]. *)
Theorem estimate_monotone_in_premium (i : SavingsInput) (q : float) :
  inherited (state i) = false ->
  nonneg_finite (currentPremium i) = true ->
  nonneg_finite q = true ->
  (currentPremium i <=? q)%float = true ->
  (estimatedNewPremium (App i)
     <=? estimatedNewPremium (App (handleChange (Change_currentPremium q) i)))%float = true.
Proof.
  intros Hs Hi Hq Hle.
  destruct (resolve_state_number _ Hs) as (x & Hx & Hin).
  destruct (App_number i x Hx) as (_ & -> & _).
  destruct (App_number (handleChange (Change_currentPremium q) i) x Hx) as (_ & -> & _).
  cbn [handleChange ageRange vehicleType coverageLevel drivingHistory currentPremium].
  destruct (multiplier_exact (ageRange i) x (vehicleType i) (coverageLevel i)
              (drivingHistory i) Hin) as (Fsm & _ & Hsm1).
  apply nonneg_finite_fin in Hi, Hq.
  rewrite leb_exact in Hle by assumption. apply Z.leb_le in Hle.
  apply round_mul_mono_l; assumption.
Qed.

Lemma estimate_monotone_in_premium_witness :
  nonneg_finite (currentPremium initial_values) = true
  /\ (currentPremium initial_values <=? 180.5)%float = true
  /\ (estimatedNewPremium (App initial_values)
      <=? estimatedNewPremium
            (App (handleChange (Change_currentPremium 180.5) initial_values)))%float = true.
Proof.
  split; [reflexivity|]. split; [reflexivity|].
  apply (estimate_monotone_in_premium initial_values 180.5); reflexivity.
Defined.

(** ** The subtraction of line 43 is exact *)

Lemma half_representable N :
  1 <= N ->
  (exists M, N * 2 ^ 1074 = M * 2 ^ cexp 0 (N * 2 ^ 1074)) ->
  exists M, N * 2 ^ 1073 = M * 2 ^ cexp 0 (N * 2 ^ 1073).
Proof.
  intros HN [M HM]. exists M.
  unfold cexp in *.
  rewrite Z.log2_mul_pow2 in * by lia.
  pose proof (Z.log2_nonneg N) as Hl.
  rewrite Z.max_l in * by lia.
  replace (1074 + Z.log2 N - 52) with (Z.log2 N + 1021 + 1) in HM by lia.
  replace (1073 + Z.log2 N - 52) with (Z.log2 N + 1021) by lia.
  change 1074 with (1073 + 1) in HM.
  rewrite (Z.pow_add_r 2 (Z.log2 N + 1021) 1), (Z.pow_add_r 2 1073 1), !Z.pow_1_r in HM by lia.
  set (A := 2 ^ 1073) in *. set (B := 2 ^ (Z.log2 N + 1021)) in *.
  clearbody A B. lia.
Qed.

(** For an integer premium [N] and a multiplier of at least one half, the
    rounded product [n] has [n <= N <= 2 n]. *)
Lemma round_mul_ge_half p s N :
  fin_nonneg (Prim2SF p) -> fin_nonneg (Prim2SF s) ->
  2 ^ 1073 <= exact s -> exact s <= 2 ^ 1074 ->
  0 <= N -> exact p = N * 2 ^ 1074 ->
  exists n, 0 <= n <= N /\ N <= 2 * n /\ exact (Math_round (p * s)) = n * 2 ^ 1074.
Proof.
  intros Hp Hs Hlo Hhi HN0 HN.
  destruct (round_mul p s Hp Hs Hhi) as [Fr Er].
  destruct (round_mul_le_int p s Hp Hs Hhi N HN) as (n & Hn & En).
  exists n. split; [exact Hn|]. split; [|exact En].
  destruct (Z.eq_dec N 0) as [->|Hnz]; [lia|].
  destruct (mul_le_one p s Hp Hs Hhi) as (_ & Em & _).
  assert (Hn' : n = floor_half_up (exact (p * s))).
  { rewrite Er in En. apply Z.mul_reg_r in En; [symmetry; exact En|].
    apply Z.pow_nonzero; lia. }
  assert (Hhalf : N * 2 ^ 1073 <= exact (p * s)).
  { rewrite Em.
    destruct (scaled_representable (Prim2SF p) (Prim2SF_valid p) Hp) as [M HM].
    fold (exact p) in HM. rewrite HN in HM.
    destruct (half_representable N ltac:(lia) (ex_intro _ M HM)) as [M' HM'].
    rewrite <- (RN_representable 1074 (N * 2 ^ 1073) M') at 1;
      [|lia|apply Z.mul_nonneg_nonneg; [lia|apply Z.pow_nonneg; lia]|exact HM'].
    apply RN_mono; [lia|]. rewrite HN.
    clear - Hlo HN0. set (S := exact s) in *. set (A := 2 ^ 1073) in *.
    assert (HU : 0 < 2 ^ 1074) by (apply pow2_pos; lia).
    assert (HA : 0 < A) by (apply pow2_pos; lia).
    set (U := 2 ^ 1074) in *. clearbody S A U.
    split; [apply Z.mul_nonneg_nonneg; nia|].
    replace (N * A * U) with (N * U * A) by ring.
    apply Z.mul_le_mono_nonneg_l; [nia | exact Hlo]. }
  subst n. apply Z.le_trans with (2 * floor_half_up (N * 2 ^ 1073)).
  - clear. unfold floor_half_up.
    replace (2 * (N * 2 ^ 1073) + 2 ^ 1074) with ((N + 1) * 2 ^ 1074)
      by (change (2 ^ 1074) with (2 * 2 ^ 1073); set (A := 2 ^ 1073); clearbody A; ring).
    change (2 ^ 1075) with (2 * 2 ^ 1074).
    rewrite Z.div_mul_cancel_r by (try apply Z.pow_nonzero; lia).
    pose proof (Z.div_mod (N + 1) 2 ltac:(lia)).
    pose proof (Z.mod_pos_bound (N + 1) 2 ltac:(lia)). lia.
  - apply Z.mul_le_mono_nonneg_l; [lia|]. apply floor_half_up_mono. exact Hhalf.
Qed.

(** The difference of two doubles, the smaller at least half the larger, is
    a double (Sterbenz): [p - Math.round(p * s)] is computed without error. *)
Lemma sub_round_exact p s N :
  fin_nonneg (Prim2SF p) -> fin_nonneg (Prim2SF s) ->
  2 ^ 1073 <= exact s -> exact s <= 2 ^ 1074 ->
  0 <= N -> exact p = N * 2 ^ 1074 ->
  exists n, 0 <= n <= N /\ N <= 2 * n
    /\ fin_nonneg (Prim2SF (Math_round (p * s)))
    /\ exact (Math_round (p * s)) = n * 2 ^ 1074
    /\ fin_nonneg (Prim2SF (p - Math_round (p * s)))
    /\ exact (p - Math_round (p * s)) = (N - n) * 2 ^ 1074.
Proof.
  intros Hp Hs Hlo Hhi HN0 HN.
  destruct (round_mul_ge_half p s N Hp Hs Hlo Hhi HN0 HN) as (n & Hn & Hhalf & En).
  destruct (round_mul p s Hp Hs Hhi) as [Fr _].
  exists n. do 3 (split; [assumption|]). split; [exact En|].
  assert (HU : 0 < 2 ^ 1074) by (apply pow2_pos; lia).
  assert (Hle : exact (Math_round (p * s)) <= exact p).
  { rewrite En, HN. apply Z.mul_le_mono_nonneg_r; lia. }
  destruct (sub_exact p _ Hp Fr Hle) as [Fd Ed].
  split; [exact Fd|]. rewrite Ed, En, HN.
  destruct (scaled_representable (Prim2SF p) (Prim2SF_valid p) Hp) as [Mp HMp].
  destruct (scaled_representable _ (Prim2SF_valid (Math_round (p * s))) Fr) as [Mn HMn].
  fold (exact p) in HMp. fold (exact (Math_round (p * s))) in HMn.
  rewrite HN in HMp. rewrite En in HMn.
  replace (N * 2 ^ 1074 - n * 2 ^ 1074) with ((N - n) * 2 ^ 1074)
    by (set (U := 2 ^ 1074); clearbody U; ring).
  assert (Hcn : cexp 0 (n * 2 ^ 1074) <= cexp 0 (N * 2 ^ 1074)).
  { apply cexp_mono. split; [apply Z.mul_nonneg_nonneg; lia|].
    apply Z.mul_le_mono_nonneg_r; lia. }
  assert (Hcd : cexp 0 ((N - n) * 2 ^ 1074) <= cexp 0 (n * 2 ^ 1074)).
  { apply cexp_mono. split; [apply Z.mul_nonneg_nonneg; lia|].
    apply Z.mul_le_mono_nonneg_r; lia. }
  pose proof (cexp_ge 0 ((N - n) * 2 ^ 1074)) as Hd0.
  rewrite <- (Z.mul_1_r (RN 0 _)). change 1 with (2 ^ 0).
  apply (RN_exact 0 _ (Mp * 2 ^ (cexp 0 (N * 2 ^ 1074) - cexp 0 ((N - n) * 2 ^ 1074))
                       - Mn * 2 ^ (cexp 0 (n * 2 ^ 1074) - cexp 0 ((N - n) * 2 ^ 1074))));
    [lia|].
  set (cP := cexp 0 (N * 2 ^ 1074)) in *. set (cN := cexp 0 (n * 2 ^ 1074)) in *.
  set (cD := cexp 0 ((N - n) * 2 ^ 1074)) in *.
  assert (EP : 2 ^ cP = 2 ^ (cP - cD) * 2 ^ cD)
    by (rewrite <- Z.pow_add_r by lia; f_equal; lia).
  assert (EN : 2 ^ cN = 2 ^ (cN - cD) * 2 ^ cD)
    by (rewrite <- Z.pow_add_r by lia; f_equal; lia).
  rewrite EP in HMp. rewrite EN in HMn.
  clear - HMp HMn.
  set (U := 2 ^ 1074) in *. set (A := 2 ^ (cP - cD)) in *.
  set (B := 2 ^ (cN - cD)) in *. set (C := 2 ^ cD) in *. clearbody U A B C.
  replace ((N - n) * U) with (N * U - n * U) by ring.
  rewrite HMp, HMn. ring.
Qed.

Lemma exact_half : 2 ^ 1073 <= exact 0.70.
Proof. apply Z.leb_le. reflexivity. Qed.

Lemma isInteger_of_exact x n :
  fin_nonneg (Prim2SF x) -> exact x = n * 2 ^ 1074 -> Number_isInteger x = true.
Proof.
  unfold Number_isInteger, exact. pose proof (Prim2SF_valid x) as Hv.
  destruct (Prim2SF x) as [s|s| |s m e]; cbn [fin_nonneg]; try tauto.
  intros -> He. cbn [scaled] in He. rewrite Z.mul_1_l in He.
  apply valid_finite in Hv. destruct Hv as [Hc _].
  destruct (Z.leb_spec 0 e) as [Hpos|Hneg]; [reflexivity|]. cbn [orb].
  apply Z.eqb_eq.
  replace 1074 with (- e + (e + 1074)) in He at 2 by lia.
  rewrite (Z.pow_add_r 2 (- e)), Z.mul_assoc in He by lia.
  apply Z.mul_reg_r in He; [|apply Z.pow_nonzero; lia].
  rewrite He. apply Z.mod_mul. apply Z.pow_nonzero; lia.
Qed.

(** X6.  For every non-negative integer premium, however large, the
    estimated premium and the monthly savings add up to the current premium
    exactly (in exact values, not up to rounding: the subtraction of line 43
    makes no rounding error), and both are integers. *)
Theorem estimate_plus_savings_is_premium (i : SavingsInput) :
  inherited (state i) = false ->
  Number_isInteger (currentPremium i) = true ->
  (0 <=? currentPremium i)%float = true ->
  exact (estimatedNewPremium (App i)) + exact (monthlySavings (App i))
    = exact (currentPremium i)
  /\ Number_isInteger (estimatedNewPremium (App i)) = true
  /\ Number_isInteger (monthlySavings (App i)) = true.
Proof.
  intros Hs Hint Hpos. destruct (resolve_state_number _ Hs) as (x & Hx & Hin).
  destruct (App_number i x Hx) as (_ & -> & -> & _).
  destruct (multiplier_exact (ageRange i) x (vehicleType i) (coverageLevel i)
              (drivingHistory i) Hin) as (Fsm & Hlo & Hhi).
  destruct (isInteger_exact _ Hint Hpos) as (Fp & N & HN0 & HN).
  destruct (sub_round_exact _ _ N Fp Fsm (Z.le_trans _ _ _ exact_half Hlo) Hhi HN0 HN)
    as (n & Hn & _ & Fr & En & Fd & Ed).
  destruct (Math_max_0 _ Fd) as [Fm Em].
  split; [|split].
  - rewrite Em, Ed, En, HN. set (U := 2 ^ 1074); clearbody U; ring.
  - eapply isInteger_of_exact; eassumption.
  - eapply isInteger_of_exact; [exact Fm|]. rewrite Em. exact Ed.
Qed.

Lemma estimate_plus_savings_is_premium_witness :
  inherited (state (high_risk_values 10010000000000002)) = false
  /\ Number_isInteger 10010000000000002 = true
  /\ exact (estimatedNewPremium (App (high_risk_values 10010000000000002)))
     + exact (monthlySavings (App (high_risk_values 10010000000000002)))
     = exact 10010000000000002.
Proof.
  split; [reflexivity|]. split; [reflexivity|].
  apply (estimate_plus_savings_is_premium (high_risk_values 10010000000000002));
    reflexivity.
Defined.

(** X7.  For every non-negative integer premium the monthly savings are at
    most what the floor of the clamp allows, [p - Math.round(p * 0.70)],
    and at most the premium itself. *)
Theorem savings_at_most_thirty_percent (i : SavingsInput) :
  inherited (state i) = false ->
  Number_isInteger (currentPremium i) = true ->
  (0 <=? currentPremium i)%float = true ->
  (monthlySavings (App i)
     <=? currentPremium i - Math_round (currentPremium i * 0.70))%float = true
  /\ (monthlySavings (App i) <=? currentPremium i)%float = true.
Proof.
  intros Hs Hint Hpos. destruct (resolve_state_number _ Hs) as (x & Hx & Hin).
  destruct (App_number i x Hx) as (_ & _ & -> & _).
  set (p := currentPremium i) in *.
  destruct (multiplier_exact (ageRange i) x (vehicleType i) (coverageLevel i)
              (drivingHistory i) Hin) as (Fsm & Hlo & Hhi).
  set (sm := multiplier _ _ _ _ _) in *.
  destruct (isInteger_exact _ Hint Hpos) as (Fp & N & HN0 & HN).
  destruct (sub_round_exact p sm N Fp Fsm (Z.le_trans _ _ _ exact_half Hlo) Hhi HN0 HN)
    as (n & Hn & _ & Fr & En & Fd & Ed).
  assert (F7 : fin_nonneg (Prim2SF 0.70)) by reflexivity.
  assert (H71 : exact 0.70 <= 2 ^ 1074) by (apply Z.leb_le; reflexivity).
  destruct (sub_round_exact p 0.70 N Fp F7 exact_half H71 HN0 HN)
    as (n0 & Hn0 & _ & Fr0 & En0 & Fd0 & Ed0).
  destruct (Math_max_0 _ Fd) as [Fm Em].
  assert (HU : 0 < 2 ^ 1074) by (apply pow2_pos; lia).
  assert (Hnn : n0 <= n).
  { pose proof (round_mul_mono p 0.70 sm Fp F7 Fsm Hlo Hhi) as Hmono.
    rewrite leb_exact in Hmono by assumption. apply Z.leb_le in Hmono.
    rewrite En, En0 in Hmono.
    apply Z.mul_le_mono_pos_r in Hmono; assumption. }
  split; rewrite leb_exact by assumption; apply Z.leb_le; rewrite Em, Ed.
  - rewrite Ed0. apply Z.mul_le_mono_nonneg_r; lia.
  - rewrite HN. apply Z.mul_le_mono_nonneg_r; lia.
Qed.

Lemma savings_at_most_thirty_percent_witness :
  inherited (state (high_risk_values 52)) = false
  /\ Number_isInteger 52 = true
  /\ (monthlySavings (App (high_risk_values 52)) <=? 52 - Math_round (52 * 0.70))%float = true
  /\ (monthlySavings (App (high_risk_values 52)) <=? 52)%float = true.
Proof.
  split; [reflexivity|]. split; [reflexivity|].
  apply (savings_at_most_thirty_percent (high_risk_values 52)); reflexivity.
Defined.

Lemma eqb_exact x y :
  fin_nonneg (Prim2SF x) -> fin_nonneg (Prim2SF y) ->
  (x =? y)%float = (exact x =? exact y).
Proof.
  intros Hx Hy. rewrite eqb_spec. unfold SFeqb. rewrite compare_exact by assumption.
  rewrite Z.eqb_compare. reflexivity.
Qed.

Lemma Math_max_0_zero v :
  fin_nonneg (Prim2SF v) -> exact v = 0 -> Math_max 0 v = 0%float.
Proof.
  intros Fv Ev. unfold Math_max. rewrite (is_nan_fin v Fv).
  change (is_nan 0) with false. cbn [orb].
  rewrite !ltb_exact by (assumption || exact I). rewrite Ev.
  change (exact 0) with 0. reflexivity.
Qed.

(** X8.  When the multiplier sits on its cap of 1.00 (a baseline multiplier
    of at most 0.92), a non-negative integer premium is estimated at itself
    and both savings are [+0]. *)
Theorem capped_multiplier_no_savings (i : SavingsInput) :
  inherited (state i) = false ->
  Number_isInteger (currentPremium i) = true ->
  (0 <=? currentPremium i)%float = true ->
  (savingsMultiplier (App i) =? 1.0)%float = true ->
  (estimatedNewPremium (App i) =? currentPremium i)%float = true
  /\ monthlySavings (App i) = 0%float
  /\ annualSavings (App i) = 0%float.
Proof.
  intros Hs Hint Hpos Hcap. destruct (resolve_state_number _ Hs) as (x & Hx & Hin).
  destruct (App_number i x Hx) as (Esm & -> & -> & ->). rewrite Esm in Hcap.
  set (p := currentPremium i) in *.
  destruct (multiplier_exact (ageRange i) x (vehicleType i) (coverageLevel i)
              (drivingHistory i) Hin) as (Fsm & _ & Hhi).
  set (sm := multiplier _ _ _ _ _) in *.
  rewrite eqb_exact in Hcap by (assumption || reflexivity).
  apply Z.eqb_eq in Hcap. rewrite exact_one in Hcap.
  destruct (isInteger_exact _ Hint Hpos) as (Fp & N & HN0 & HN).
  destruct (mul_le_one p sm Fp Fsm Hhi) as (Fm & Em & _).
  destruct (round_mul p sm Fp Fsm Hhi) as [Fr Er].
  pose proof (exact_bounds p Fp) as [Hp0 _].
  destruct (scaled_representable (Prim2SF p) (Prim2SF_valid p) Fp) as [M HM].
  fold (exact p) in HM.
  assert (Emul : exact (p * sm) = exact p).
  { rewrite Em, Hcap. apply (RN_representable 1074 (exact p) M); [lia | exact Hp0 | exact HM]. }
  assert (Eround : exact (Math_round (p * sm)) = exact p).
  { rewrite Er, Emul, HN, floor_half_up_int. reflexivity. }
  assert (Hle : exact (Math_round (p * sm)) <= exact p) by (rewrite Eround; apply Z.le_refl).
  destruct (sub_exact p _ Fp Fr Hle) as [Fd Ed].
  rewrite Eround, Z.sub_diag, RN_zero in Ed by lia.
  rewrite (Math_max_0_zero _ Fd Ed).
  split; [|split; reflexivity].
  rewrite eqb_exact by assumption. apply Z.eqb_eq. exact Eround.
Qed.

Lemma capped_multiplier_no_savings_witness :
  (savingsMultiplier (App wyoming_values) =? 1.0)%float = true
  /\ (estimatedNewPremium (App wyoming_values) =? currentPremium wyoming_values)%float = true
  /\ monthlySavings (App wyoming_values) = 0%float
  /\ annualSavings (App wyoming_values) = 0%float.
Proof.
  split; [reflexivity|].
  apply (capped_multiplier_no_savings wyoming_values); reflexivity.
Defined.

(** * A negative premium

    The box has [min="50"], which the handler does not enforce:
    [parseInt] reads a typed [-100] as it stands.  Below zero the chain
    mirrors the one above zero, except for [Math.round], whose ties go up. *)

Lemma binary_round_aux_opp m e l :
  binary_round_aux prec emax true m e l = SFopp (binary_round_aux prec emax false m e l).
Proof.
  unfold binary_round_aux.
  destruct (shr_fexp prec emax m e l) as [mrs1 e1].
  destruct (shr_fexp prec emax _ e1 loc_Exact) as [mrs2 e2].
  destruct (shr_m mrs2); try reflexivity.
  destruct (e2 <=? emax - prec); reflexivity.
Qed.

(** The product with a negated factor is the negated product. *)
Lemma mul_opp_l (p s : float) m e :
  Prim2SF s = S754_finite false m e ->
  Prim2SF (- p * s) = SFopp (Prim2SF (p * s)).
Proof.
  intros Hs. rewrite !mul_spec, opp_spec, Hs. unfold SF64mul.
  destruct (Prim2SF p) as [sp|sp| |sp mp ep]; cbn [SFopp SFmul xorb]; try reflexivity.
  - destruct sp; reflexivity.
  - destruct sp; reflexivity.
  - destruct sp; cbn [negb xorb].
    + rewrite binary_round_aux_opp.
      destruct (binary_round_aux prec emax false (Z.pos (mp * m)) (ep + e) loc_Exact)
        as [[|]|[|]| |[|] ? ?]; reflexivity.
    + apply binary_round_aux_opp.
Qed.

Lemma floor_half_up_scale v K :
  0 <= K <= 1074 ->
  floor_half_up (v * 2 ^ (1074 - K)) = (2 * v + 2 ^ K) / 2 ^ (K + 1).
Proof.
  intros HK. unfold floor_half_up.
  replace (2 ^ 1074) with (2 ^ K * 2 ^ (1074 - K))
    by (rewrite <- Z.pow_add_r by lia; f_equal; lia).
  replace (2 ^ 1075) with (2 ^ (K + 1) * 2 ^ (1074 - K))
    by (rewrite <- Z.pow_add_r by lia; f_equal; lia).
  replace (2 * (v * 2 ^ (1074 - K)) + 2 ^ K * 2 ^ (1074 - K))
    with ((2 * v + 2 ^ K) * 2 ^ (1074 - K)) by ring.
  apply Z.div_mul_cancel_r; apply Z.pow_nonzero; lia.
Qed.

(** [Math.round] below zero: still the floor of the exact value plus one
    half, a zero or a negative integer. *)
Lemma Math_round_exact_neg x m e :
  Prim2SF x = S754_finite true m e ->
  (exists s, Prim2SF (Math_round x) = S754_zero s
             /\ floor_half_up (exact x) = 0)
  \/ (exists m' e', Prim2SF (Math_round x) = S754_finite true m' e'
             /\ exact (Math_round x) = floor_half_up (exact x) * 2 ^ 1074).
Proof.
  intros E. unfold Math_round. pose proof (Prim2SF_valid x) as Hv.
  unfold exact at 1 3. rewrite E in *. cbn [scaled].
  apply valid_finite in Hv. destruct Hv as [Hc He].
  pose proof (Zdigits2_bounds (Z.pos m) ltac:(lia)) as [_ Hhi].
  assert (H53 : Z.pos m < 2 ^ 53).
  { pose proof (pow2_le (Zdigits2 (Z.pos m)) 53 ltac:(lia)). lia. }
  replace (-1 * (Z.pos m * 2 ^ (e + 1074))) with (Z.neg m * 2 ^ (e + 1074))
    by (set (A := 2 ^ (e + 1074)); clearbody A; lia).
  destruct (Z.leb_spec 0 e) as [Hpos|Hneg].
  - right. exists m, e. split; [exact E|]. unfold exact. rewrite E. cbn [scaled].
    rewrite Z.pow_add_r by lia.
    replace (Z.neg m * (2 ^ e * 2 ^ 1074)) with (Z.neg m * 2 ^ e * 2 ^ 1074)
      by (set (A := 2 ^ e); set (U := 2 ^ 1074); clearbody A U; ring).
    rewrite floor_half_up_int.
    set (A := 2 ^ e); set (U := 2 ^ 1074); clearbody A U; lia.
  - destruct e as [|k|k]; try lia.
    cbn [round_half_up].
    assert (HK : Z.pos k <= 1074) by lia.
    set (K := Z.pos k) in *.
    replace (Z.neg k + 1074) with (1074 - K) by (unfold K; lia).
    rewrite floor_half_up_scale by (unfold K; lia).
    set (n := (2 * Z.neg m + 2 ^ K) / 2 ^ (K + 1)).
    assert (HpK : 0 < 2 ^ K) by (apply pow2_pos; lia).
    assert (HpK1 : 2 ^ (K + 1) = 2 * 2 ^ K) by (rewrite Z.pow_add_r, Z.pow_1_r by lia; lia).
    assert (Hn0 : n <= 0).
    { unfold n. assert (H : (2 * Z.neg m + 2 ^ K) / 2 ^ (K + 1) < 1); [|lia].
      apply Z.div_lt_upper_bound; lia. }
    assert (Hn53 : - 2 ^ 53 <= n).
    { unfold n. apply Z.div_le_lower_bound; [lia|].
      rewrite HpK1. change (2 ^ 53) with 9007199254740992 in *. nia. }
    destruct (Z.eqb_spec n 0) as [Hz|Hnz].
    + left. exists true. split; [reflexivity | exact Hz].
    + right. destruct n as [|q|q] eqn:En; try lia.
      change (of_Z (Z.neg q)) with (- of_Z (Z.pos q))%float.
      destruct (of_Z_exact (Z.pos q) ltac:(lia)) as [Fq Eq].
      unfold exact in *. rewrite opp_spec.
      destruct (Prim2SF (of_Z (Z.pos q))) as [s|s| |s mq eq_]; cbn [fin_nonneg] in Fq;
        try contradiction.
      * cbn [scaled] in Eq. set (U := 2 ^ 1074) in *.
        assert (0 < U) by (apply pow2_pos; lia). clearbody U. nia.
      * subst s. exists mq, eq_. split; [reflexivity|].
        cbn [SFopp negb scaled] in *.
        set (U := 2 ^ 1074) in *. set (A := 2 ^ (eq_ + 1074)) in *. clearbody U A. lia.
Qed.

(** The difference of two numbers below zero, the first the smaller, is a
    zero or below zero. *)
Lemma SFsub_nonpos mx ex y :
  valid_binary (S754_finite true mx ex) = true -> valid_binary y = true ->
  nonpos y -> (forall s, y <> S754_infinity s) ->
  scaled (S754_finite true mx ex) <= scaled y ->
  nonpos (SFsub prec emax (S754_finite true mx ex) y).
Proof.
  intros Vx Vy Hy Hfin Hle.
  destruct y as [sy|sy| |sy my ey]; cbn [nonpos SFsub] in *; try tauto.
  - exfalso. apply (Hfin sy). reflexivity.
  - subst sy. cbn [scaled] in Hle.
    apply valid_finite in Vx, Vy. destruct Vx as [Vx _]. destruct Vy as [Vy _].
    pose proof (shl_align_spec mx ex (Z.min ex ey)) as [Ha _].
    pose proof (shl_align_spec my ey (Z.min ex ey)) as [Hb _].
    cbn [cond_Zopp].
    set (a := Z.pos (fst (shl_align mx ex (Z.min ex ey)))) in *.
    set (b := Z.pos (fst (shl_align my ey (Z.min ex ey)))) in *.
    assert (Hba : b <= a).
    { rewrite Ha, Hb.
      replace (Z.min ex (Z.min ex ey)) with (Z.min ex ey) by lia.
      replace (Z.min ey (Z.min ex ey)) with (Z.min ex ey) by lia.
      set (z := Z.min ex ey) in *.
      assert (HW : 0 < 2 ^ (z + 1074)) by (apply pow2_pos; lia).
      replace (ex + 1074) with (ex - z + (z + 1074)) in Hle by lia.
      replace (ey + 1074) with (ey - z + (z + 1074)) in Hle by lia.
      rewrite (Z.pow_add_r 2 (ex - z)), (Z.pow_add_r 2 (ey - z)) in Hle by lia.
      clear - Hle HW.
      set (W := 2 ^ (z + 1074)) in *. set (A := 2 ^ (ex - z)) in *.
      set (B := 2 ^ (ey - z)) in *. clearbody W A B.
      apply (Z.mul_le_mono_pos_r _ _ W HW). lia. }
    unfold binary_normalize.
    destruct (- a - - b) as [|d|d] eqn:Ed; [exact I|lia|].
    pose proof (binary_round_sign true d (Z.min ex ey)) as H.
    destruct (binary_round prec emax true d (Z.min ex ey)); cbn in *; tauto.
Qed.

Lemma Math_max_0_nonpos v : nonpos (Prim2SF v) -> Math_max 0 v = 0%float.
Proof.
  intros Hv. unfold Math_max.
  assert (Hn : is_nan v = false).
  { apply is_nan_spec. destruct (Prim2SF v); cbn in *; tauto. }
  rewrite Hn. change (is_nan 0) with false. cbn [orb].
  assert (Hlt : (0 <? v)%float = false).
  { rewrite ltb_spec, Prim2SF_zero.
    destruct (Prim2SF v) as [s|s| |s m e]; cbn in *; try tauto; subst; reflexivity. }
  rewrite Hlt. change (get_sign 0) with false.
  destruct (v <? 0)%float; reflexivity.
Qed.

Lemma ltb_0_negative p :
  (p <? 0)%float = true ->
  Prim2SF p = S754_infinity true \/ exists m e, Prim2SF p = S754_finite true m e.
Proof.
  rewrite ltb_spec, Prim2SF_zero. intros H.
  destruct (Prim2SF p) as [s|[|]| |[|] m e]; cbn in H; try discriminate; eauto.
Qed.

(** For a negative integer premium the rounded product is not below the
    premium, so the difference of line 43 is not above zero. *)
Lemma negative_integer_savings p s :
  fin_nonneg (Prim2SF s) -> 0 < exact s -> exact s <= 2 ^ 1074 ->
  Number_isInteger p = true -> (p <? 0)%float = true ->
  Math_max 0 (p - Math_round (p * s)) = 0%float.
Proof.
  intros Fs Hs0 Hs1 Hint Hneg.
  apply Math_max_0_nonpos.
  destruct (positive_finite s Fs Hs0) as (ms & es & Es).
  destruct (ltb_0_negative p Hneg) as [Hp|(m & e & Hp)].
  { unfold Number_isInteger in Hint. rewrite Hp in Hint. discriminate. }
  set (q := (- p)%float).
  assert (Eq : Prim2SF q = S754_finite false m e)
    by (unfold q; rewrite opp_spec, Hp; reflexivity).
  assert (Fq : fin_nonneg (Prim2SF q)) by (rewrite Eq; reflexivity).
  assert (Iq : Number_isInteger q = true).
  { unfold Number_isInteger in *. rewrite Eq. rewrite Hp in Hint. exact Hint. }
  assert (Pq : (0 <=? q)%float = true) by (rewrite leb_spec, Eq; reflexivity).
  destruct (isInteger_exact q Iq Pq) as (_ & N & HN0 & HN).
  assert (Hpq : exact p = - exact q) by (unfold exact; rewrite Hp, Eq; cbn [scaled]; lia).
  destruct (mul_le_one q s Fq Fs Hs1) as (Fm & _ & Hle).
  assert (Em : Prim2SF (p * s) = SFopp (Prim2SF (q * s))).
  { replace p with (- q)%float at 1; [eapply mul_opp_l; exact Es|].
    apply Prim2SF_inj. unfold q. rewrite !opp_spec.
    destruct (Prim2SF p) as [[|]|[|]| |[|] ? ?]; reflexivity. }
  assert (Hy : exact (p * s) = - exact (q * s)).
  { unfold exact. rewrite Em.
    destruct (Prim2SF (q * s)) as [?|[|]| |[|] ? ?]; cbn [SFopp scaled negb]; hide_big; lia. }
  assert (Hfl : - N <= floor_half_up (exact (p * s))).
  { rewrite <- (floor_half_up_int (- N)). apply floor_half_up_mono.
    rewrite Hy. rewrite HN in Hle. lia. }
  rewrite sub_spec, Hp. unfold SF64sub.
  destruct (Prim2SF (q * s)) as [sy|sy| |sy my ey] eqn:Ey; cbn [fin_nonneg] in Fm;
    try contradiction.
  - assert (Hr : Prim2SF (Math_round (p * s)) = S754_zero (negb sy)).
    { unfold Math_round. rewrite Em. cbn [SFopp]. exact Em. }
    rewrite Hr. reflexivity.
  - subst sy. cbn [SFopp negb] in Em.
    destruct (Math_round_exact_neg (p * s) my ey Em) as [(s0 & Hr & _)|(m' & e' & Hr & Er)].
    + rewrite Hr. reflexivity.
    + apply SFsub_nonpos.
      * rewrite <- Hp. apply Prim2SF_valid.
      * apply Prim2SF_valid.
      * rewrite Hr. reflexivity.
      * rewrite Hr. discriminate.
      * fold (exact (Math_round (p * s))). rewrite Er.
        assert (Hsc : scaled (S754_finite true m e) = - (N * 2 ^ 1074))
          by (rewrite <- HN, <- Hpq; unfold exact; rewrite Hp; reflexivity).
        rewrite Hsc.
        assert (HU : 0 < 2 ^ 1074) by (apply pow2_pos; lia).
        clear - Hfl HU. set (U := 2 ^ 1074) in *. clearbody U. nia.
Qed.

(** X9.  A negative integer premium (the handler stores what [parseInt]
    read; the [min] of the box is not enforced) gives savings of exactly
    [+0], monthly and annual: the estimate is a negative number not below
    the premium and [Math.max(0, ...)] hides the difference. *)
Theorem negative_premium_no_savings (i : SavingsInput) :
  inherited (state i) = false ->
  Number_isInteger (currentPremium i) = true ->
  (currentPremium i <? 0)%float = true ->
  monthlySavings (App i) = 0%float /\ annualSavings (App i) = 0%float.
Proof.
  intros Hs Hint Hneg. destruct (resolve_state_number _ Hs) as (x & Hx & Hin).
  destruct (App_number i x Hx) as (_ & _ & -> & ->).
  destruct (multiplier_exact (ageRange i) x (vehicleType i) (coverageLevel i)
              (drivingHistory i) Hin) as (Fsm & Hlo & Hhi).
  assert (H0 : 0 < exact (multiplier (ageRange i) x (vehicleType i) (coverageLevel i)
                                     (drivingHistory i))).
  { eapply Z.lt_le_trans; [|exact Hlo]. reflexivity. }
  rewrite (negative_integer_savings _ _ Fsm H0 Hhi Hint Hneg).
  split; reflexivity.
Qed.

Lemma negative_premium_no_savings_witness :
  Number_isInteger (-100) = true
  /\ (-100 <? 0)%float = true
  /\ monthlySavings (App (high_risk_values (-100))) = 0%float
  /\ annualSavings (App (high_risk_values (-100))) = 0%float.
Proof.
  split; [reflexivity|]. split; [reflexivity|].
  apply (negative_premium_no_savings (high_risk_values (-100))); reflexivity.
Defined.

(** * The whole profile *)

Lemma In_ageRanges a : In a ageRanges.
Proof. destruct a; cbn; tauto. Qed.

Lemma In_vehicleTypes v : In v vehicleTypes.
Proof. destruct v; cbn; tauto. Qed.

Lemma In_coverageLevels c : In c coverageLevels.
Proof. destruct c; cbn; tauto. Qed.

Lemma In_drivingHistories h : In h drivingHistories.
Proof. destruct h; cbn; tauto. Qed.

Lemma every_profile_spec f :
  every_profile f = true ->
  forall a x v c h, In x (map snd STATE_FACTOR) -> f a x v c h = true.
Proof.
  unfold every_profile. intros H a x v c h Hx.
  rewrite forallb_forall in H. specialize (H a (In_ageRanges a)).
  rewrite forallb_forall in H. specialize (H x Hx).
  rewrite forallb_forall in H. specialize (H v (In_vehicleTypes v)).
  rewrite forallb_forall in H. specialize (H c (In_coverageLevels c)).
  rewrite forallb_forall in H. exact (H h (In_drivingHistories h)).
Qed.

(** The five checks, each over 1728 profiles and the values of one factor. *)
Lemma age_step_ok : age_step = true.
Proof. vm_compute. reflexivity. Qed.

Lemma state_step_ok : state_step = true.
Proof. vm_compute. reflexivity. Qed.

Lemma vehicle_step_ok : vehicle_step = true.
Proof. vm_compute. reflexivity. Qed.

Lemma coverage_step_ok : coverage_step = true.
Proof. vm_compute. reflexivity. Qed.

Lemma history_step_ok : history_step = true.
Proof. vm_compute. reflexivity. Qed.

Lemma step_spec {A} (l : list A) (g : A -> bool) (k : A -> bool) y :
  forallb (fun y => implb (g y) (k y)) l = true -> In y l -> g y = true -> k y = true.
Proof.
  intros H Hy Hg. rewrite forallb_forall in H. specialize (H y Hy).
  rewrite Hg in H. exact H.
Qed.

Lemma multiplier_le_trans a1 x1 v1 c1 h1 a2 x2 v2 c2 h2 a3 x3 v3 c3 h3 :
  In x1 (map snd STATE_FACTOR) -> In x2 (map snd STATE_FACTOR) ->
  In x3 (map snd STATE_FACTOR) ->
  (multiplier a3 x3 v3 c3 h3 <=? multiplier a2 x2 v2 c2 h2)%float = true ->
  (multiplier a2 x2 v2 c2 h2 <=? multiplier a1 x1 v1 c1 h1)%float = true ->
  (multiplier a3 x3 v3 c3 h3 <=? multiplier a1 x1 v1 c1 h1)%float = true.
Proof.
  intros H1 H2 H3.
  destruct (multiplier_exact a1 x1 v1 c1 h1 H1) as [F1 _].
  destruct (multiplier_exact a2 x2 v2 c2 h2 H2) as [F2 _].
  destruct (multiplier_exact a3 x3 v3 c3 h3 H3) as [F3 _].
  rewrite !leb_exact by assumption. rewrite !Z.leb_le. apply Z.le_trans.
Qed.

(** Factor by factor, from one profile to a profile that is nowhere
    smaller. *)
Lemma multiplier_antitone a x v c h a' x' v' c' h' :
  In x (map snd STATE_FACTOR) -> In x' (map snd STATE_FACTOR) ->
  (AGE_FACTOR a <=? AGE_FACTOR a')%float = true ->
  (x <=? x')%float = true ->
  (VEHICLE_FACTOR v <=? VEHICLE_FACTOR v')%float = true ->
  (COVERAGE_FACTOR c <=? COVERAGE_FACTOR c')%float = true ->
  (HISTORY_FACTOR h <=? HISTORY_FACTOR h')%float = true ->
  (multiplier a' x' v' c' h' <=? multiplier a x v c h)%float = true.
Proof.
  intros Hx Hx' Ha Hxx Hv Hc Hh.
  pose proof (step_spec _ _ _ a' (every_profile_spec _ age_step_ok a x v c h Hx)
                (In_ageRanges a') Ha) as S1.
  pose proof (step_spec _ _ _ x' (every_profile_spec _ state_step_ok a' x v c h Hx)
                Hx' Hxx) as S2.
  pose proof (step_spec _ _ _ v' (every_profile_spec _ vehicle_step_ok a' x' v c h Hx')
                (In_vehicleTypes v') Hv) as S3.
  pose proof (step_spec _ _ _ c' (every_profile_spec _ coverage_step_ok a' x' v' c h Hx')
                (In_coverageLevels c') Hc) as S4.
  pose proof (step_spec _ _ _ h' (every_profile_spec _ history_step_ok a' x' v' c' h Hx')
                (In_drivingHistories h') Hh) as S5.
  cbv beta in *.
  eapply multiplier_le_trans; [exact Hx| |exact Hx'| |exact S1]; [exact Hx|].
  eapply multiplier_le_trans; [exact Hx| |exact Hx'| |exact S2]; [exact Hx'|].
  eapply multiplier_le_trans; [exact Hx'| |exact Hx'| |exact S3]; [exact Hx'|].
  eapply multiplier_le_trans; [exact Hx'| |exact Hx'| |exact S4]; [exact Hx'|].
  exact S5.
Qed.

(** X10.  A profile that is nowhere less risky never gets the higher
    estimate: if each of the five factors of [j] is at least that of [i]
    (age, state, vehicle, coverage, history, any number of them changed at
    once) and the premium is the same non-negative finite number, then the
    savings multiplier and the estimated premium of [j] are at most those
    of [i]. *)
Theorem riskier_profile_never_raises_estimate (i j : SavingsInput) :
  inherited (state i) = false -> inherited (state j) = false ->
  currentPremium j = currentPremium i ->
  nonneg_finite (currentPremium i) = true ->
  (ageFactor (App i) <=? ageFactor (App j))%float = true ->
  (ToNumber (stateFactor (App i)) <=? ToNumber (stateFactor (App j)))%float = true ->
  (vehicleFactor (App i) <=? vehicleFactor (App j))%float = true ->
  (coverageFactor (App i) <=? coverageFactor (App j))%float = true ->
  (historyFactor (App i) <=? historyFactor (App j))%float = true ->
  (savingsMultiplier (App j) <=? savingsMultiplier (App i))%float = true
  /\ (estimatedNewPremium (App j) <=? estimatedNewPremium (App i))%float = true.
Proof.
  intros Hi Hj Ep Hp Ha Hx Hv Hc Hh.
  destruct (resolve_state_number _ Hi) as (x & Ex & Hin).
  destruct (resolve_state_number _ Hj) as (x' & Ex' & Hin').
  destruct (App_number i x Ex) as (-> & -> & _).
  destruct (App_number j x' Ex') as (-> & -> & _).
  unfold App in Ha, Hx, Hv, Hc, Hh. rewrite Ex, Ex' in Hx.
  cbn [compute ageFactor stateFactor vehicleFactor coverageFactor historyFactor ToNumber]
    in Ha, Hx, Hv, Hc, Hh.
  pose proof (multiplier_antitone _ _ _ _ _ _ _ _ _ _ Hin Hin' Ha Hx Hv Hc Hh) as Hm.
  split; [exact Hm|]. rewrite Ep.
  destruct (multiplier_exact (ageRange i) x (vehicleType i) (coverageLevel i)
              (drivingHistory i) Hin) as (Fi & _ & Hi1).
  destruct (multiplier_exact (ageRange j) x' (vehicleType j) (coverageLevel j)
              (drivingHistory j) Hin') as (Fj & _ & _).
  rewrite leb_exact in Hm by assumption. apply Z.leb_le in Hm.
  apply round_mul_mono; try assumption.
  apply nonneg_finite_fin. exact Hp.
Qed.

Lemma riskier_profile_never_raises_estimate_witness :
  (ageFactor (App initial_values) <=? ageFactor (App (high_risk_values 180)))%float = true
  /\ (savingsMultiplier (App (high_risk_values 180))
      <=? savingsMultiplier (App initial_values))%float = true
  /\ (estimatedNewPremium (App (high_risk_values 180))
      <=? estimatedNewPremium (App initial_values))%float = true.
Proof.
  split; [reflexivity|].
  apply (riskier_profile_never_raises_estimate initial_values (high_risk_values 180));
    reflexivity.
Defined.

(** * The selects and the tables *)

Lemma own_property_key k o x : own_property k o = Some x -> In k (map fst o).
Proof.
  induction o as [|[k' y] o IH]; cbn [own_property map fst]; [discriminate|].
  destruct (String.eqb_spec k k'); [intros _; left; congruence | right; auto].
Qed.

Lemma key_own_property k o : In k (map fst o) -> exists x, own_property k o = Some x.
Proof.
  induction o as [|[k' y] o IH]; cbn [own_property map fst In]; [contradiction|].
  destruct (String.eqb_spec k k'); [eauto|].
  intros [H|H]; [congruence | auto].
Qed.

(** A read gives a number exactly on the own keys. *)
Lemma read_property_number o k :
  (exists x, read_property o k = JNumber x) <-> In k (map fst o).
Proof.
  unfold read_property. split.
  - intros [x H]. destruct (own_property k o) as [y|] eqn:E.
    + eapply own_property_key; exact E.
    + destruct (inherited k); discriminate.
  - intros H. destruct (key_own_property k o H) as [x ->]. eauto.
Qed.

Lemma read_property_missing o k :
  ~ In k (map fst o) -> is_nan (ToNumber (read_property o k)) = true.
Proof.
  intros H. destruct (read_property o k) as [|x|n] eqn:E; try reflexivity.
  exfalso. apply H. apply read_property_number. eauto.
Qed.

Lemma tips_key k o : (exists t, tips k o = Some t) <-> In k (map fst o).
Proof.
  induction o as [|[k' y] o IH]; cbn [tips map fst In].
  - split; [intros [t H]; discriminate | contradiction].
  - destruct (String.eqb_spec k k') as [->|Hne].
    + split; eauto.
    + rewrite IH. split; [auto | intros [H|H]; [congruence | exact H]].
Qed.

(** X11.  The options of the selects are exactly the keys of the tables
    they index: a string read in [AGE_FACTOR], [VEHICLE_FACTOR],
    [HISTORY_FACTOR] or [COVERAGE_FACTOR] gives a number if and only if it
    is the value of an option of the select of that field, and
    [SAVINGS_TIPS] has a list of tips for exactly the options of the
    coverage select (so the [map] of line 141 does not throw on them). *)
Theorem options_are_the_keys (k : string) :
  ((exists x, read_property AGE_FACTOR_object k = JNumber x) <-> In k ageRange_options)
  /\ ((exists x, read_property VEHICLE_FACTOR_object k = JNumber x)
      <-> In k vehicleType_options)
  /\ ((exists x, read_property HISTORY_FACTOR_object k = JNumber x)
      <-> In k drivingHistory_options)
  /\ ((exists x, read_property COVERAGE_FACTOR_object k = JNumber x)
      <-> In k coverageLevel_options)
  /\ ((exists t, tips k SAVINGS_TIPS = Some t) <-> In k coverageLevel_options).
Proof.
  split; [exact (read_property_number AGE_FACTOR_object k)|].
  split; [exact (read_property_number VEHICLE_FACTOR_object k)|].
  split; [exact (read_property_number HISTORY_FACTOR_object k)|].
  split; [exact (read_property_number COVERAGE_FACTOR_object k)|].
  exact (tips_key k SAVINGS_TIPS).
Qed.

(** X12.  On the literals of the union types the page on strings is the
    page on the types: every member of [ageRange], [vehicleType],
    [coverageLevel] and [drivingHistory] is a key of its table, with the
    factor the typed embedding gives it, whatever the state string and the
    premium. *)
Theorem typed_page_is_the_page_on_strings (i : SavingsInput) :
  App_strings (AgeRange_literal (ageRange i)) (state i)
              (VehicleType_literal (vehicleType i))
              (CoverageLevel_literal (coverageLevel i))
              (DrivingHistory_literal (drivingHistory i))
              (currentPremium i)
  = App i.
Proof.
  destruct i as [a s v c h p]. unfold App_strings, App.
  cbn [ageRange state vehicleType coverageLevel drivingHistory currentPremium].
  destruct a, v, c, h; reflexivity.
Qed.

Lemma inherited_state_nan st :
  inherited st = true -> is_nan (ToNumber (resolve_state st)) = true.
Proof.
  unfold inherited. intros H. apply existsb_exists in H. destruct H as (k & Hin & Heq).
  apply String.eqb_eq in Heq. subst k.
  cbn [OBJECT_PROTOTYPE In] in Hin.
  repeat (destruct Hin as [<-|Hin]; [reflexivity|]). contradiction.
Qed.

(** X13.  A missing key is not caught anywhere: if one of the four
    selections is a string that is not an option of its select (the read
    gives [undefined] or an inherited function), or the state names a
    property of [Object.prototype], then the savings multiplier, the
    estimated premium and both savings are [NaN], whatever the other
    fields and the premium. *)
Theorem unknown_option_gives_nan (age st vehicle coverage history : string)
    (premium : float) :
  ~ In age ageRange_options \/ inherited st = true
  \/ ~ In vehicle vehicleType_options \/ ~ In coverage coverageLevel_options
  \/ ~ In history drivingHistory_options ->
  is_nan (savingsMultiplier (App_strings age st vehicle coverage history premium)) = true
  /\ is_nan (estimatedNewPremium (App_strings age st vehicle coverage history premium)) = true
  /\ is_nan (monthlySavings (App_strings age st vehicle coverage history premium)) = true
  /\ is_nan (annualSavings (App_strings age st vehicle coverage history premium)) = true.
Proof.
  intros H. unfold App_strings.
  apply compute_nan.
  cbn [compute baselineMultiplier].
  destruct H as [H|[H|[H|[H|H]]]].
  - apply mul_nan_l, mul_nan_l, mul_nan_l, mul_nan_l.
    apply (read_property_missing AGE_FACTOR_object). exact H.
  - apply mul_nan_l, mul_nan_l, mul_nan_l, mul_nan_r.
    apply inherited_state_nan. exact H.
  - apply mul_nan_l, mul_nan_l, mul_nan_r.
    apply (read_property_missing VEHICLE_FACTOR_object). exact H.
  - apply mul_nan_r.
    apply (read_property_missing COVERAGE_FACTOR_object). exact H.
  - apply mul_nan_l, mul_nan_r.
    apply (read_property_missing HISTORY_FACTOR_object). exact H.
Qed.

Lemma unknown_option_gives_nan_witness :
  ~ In "18" ageRange_options
  /\ is_nan (monthlySavings (App_strings "18" "CA" "sedan" "standard" "clean" 180)) = true.
Proof.
  assert (H : ~ In "18" ageRange_options).
  { cbn [In ageRange_options]. intros [H|[H|[H|[H|[H|[H|H]]]]]];
      try discriminate H; exact H. }
  split; [exact H|].
  apply (unknown_option_gives_nan "18" "CA" "sedan" "standard" "clean" 180).
  left. exact H.
Defined.

(** * The form *)

Lemma entered_premium_cases parsed :
  entered_premium parsed = if ToBoolean (JNumber parsed) then parsed else 0%float.
Proof.
  unfold entered_premium, js_or. destruct (ToBoolean (JNumber parsed)); reflexivity.
Qed.

Lemma entered_premium_not_nan parsed : is_nan (entered_premium parsed) = false.
Proof.
  rewrite entered_premium_cases. cbn [ToBoolean].
  destruct (is_zero parsed) eqn:Hz; [reflexivity|].
  destruct (is_nan parsed) eqn:Hn; [reflexivity|]. exact Hn.
Qed.

(** X14.  What is stored for an entry of the premium box and what the box
    then shows (line 112): the stored premium is never [NaN] and never
    [-0]; the box shows the parsed number again, except that an entry that
    parsed to [NaN] or to a zero of either sign leaves the box empty. *)
Theorem premium_box_shows_entry (parsed : float) :
  is_nan (entered_premium parsed) = false
  /\ Prim2SF (entered_premium parsed) <> S754_zero true
  /\ premium_box (entered_premium parsed)
     = if is_nan parsed || is_zero parsed then BoxEmpty else BoxNumber parsed.
Proof.
  split; [apply entered_premium_not_nan|].
  rewrite entered_premium_cases. unfold premium_box. cbn [ToBoolean].
  rewrite (orb_comm (is_nan parsed)).
  destruct (is_zero parsed) eqn:Hz; cbn [orb negb].
  - split; [discriminate | reflexivity].
  - destruct (is_nan parsed) eqn:Hn; cbn [negb].
    + split; [discriminate | reflexivity].
    + rewrite Hz, Hn. split; [|reflexivity].
      intros H. unfold is_zero in Hz. rewrite eqb_spec, H in Hz. discriminate.
Qed.

Lemma handleChange_invariant e values :
  offered e = true -> form_invariant values ->
  form_invariant (handleChange (onChange e) values).
Proof.
  intros He [Hs Hp]. destruct e; cbn [onChange handleChange]; split;
    cbn [state currentPremium]; try assumption.
  - cbn [offered] in He. apply existsb_exists in He. destruct He as (s & Hin & Heq).
    apply String.eqb_eq in Heq. subst. exact Hin.
  - apply entered_premium_not_nan.
Qed.

Lemma after_invariant events :
  forallb offered events = true -> form_invariant (after events).
Proof.
  unfold after.
  assert (H0 : form_invariant initial_values).
  { split; [|reflexivity]. cbn. tauto. }
  revert H0. generalize initial_values as values.
  induction events as [|e events IH]; intros values H0 Hall; [exact H0|].
  cbn [forallb] in Hall. apply andb_true_iff in Hall. destruct Hall as [He Hall].
  cbn [fold_left]. apply IH; [|exact Hall].
  apply handleChange_invariant; assumption.
Qed.

(** X15.  Whatever the user does with the form (any sequence of picks from
    the selects and of entries in the premium box, parsable or not), the
    state is one of [STATES], the stored premium is not [NaN], the savings
    multiplier lies in [0.70, 1.00], the estimated premium is not [NaN],
    and the savings are [NaN] only when the stored premium is infinite. *)
Theorem form_never_shows_nan (events : list Event) :
  forallb offered events = true ->
  form_invariant (after events)
  /\ (0.70 <=? savingsMultiplier (App (after events)))%float = true
  /\ (savingsMultiplier (App (after events)) <=? 1.0)%float = true
  /\ is_nan (estimatedNewPremium (App (after events))) = false
  /\ is_nan (monthlySavings (App (after events)))
     = is_infinity (currentPremium (after events))
  /\ is_nan (annualSavings (App (after events)))
     = is_infinity (currentPremium (after events)).
Proof.
  intros Hall. set (values := after events).
  pose proof (after_invariant events Hall) as Hinv. fold values in Hinv.
  split; [exact Hinv|]. destruct Hinv as [Hs Hp].
  pose proof (STATES_resolve _ Hs) as Hi.
  destruct (resolve_state_number _ Hi) as (x & Hx & Hin).
  destruct (App_number values x Hx) as (-> & -> & -> & ->).
  destruct (multiplier_range (ageRange values) x (vehicleType values)
              (coverageLevel values) (drivingHistory values) Hin) as [Hlo Hhi].
  destruct (multiplier_finite (ageRange values) x (vehicleType values)
              (coverageLevel values) (drivingHistory values) Hin) as (m & e & Hsm).
  split; [exact Hlo|]. split; [exact Hhi|]. split.
  { rewrite Math_round_is_nan, (mul_const_is_nan _ _ _ _ _ Hsm). exact Hp. }
  rewrite (mul_const_is_nan _ 12 _ _ _ eq_refl).
  rewrite (savings_is_nan _ _ m e Hsm).
  unfold is_finite. rewrite Hp. cbn [orb]. rewrite negb_involutive. split; reflexivity.
Qed.

Lemma form_never_shows_nan_witness :
  forallb offered [Select_state "MI"; Input_currentPremium nan;
                   Select_coverageLevel full; Input_currentPremium (-240)] = true
  /\ is_nan (monthlySavings
               (App (after [Select_state "MI"; Input_currentPremium nan;
                            Select_coverageLevel full; Input_currentPremium (-240)])))
     = false.
Proof.
  split; [reflexivity|].
  apply (form_never_shows_nan [Select_state "MI"; Input_currentPremium nan;
                               Select_coverageLevel full; Input_currentPremium (-240)]).
  reflexivity.
Defined.

(** X16.  [handleChange] replaces one field and keeps the others, so after
    any sequence of calls each field holds the value of the last call that
    named it, or what it held before when no call did; calls on other
    fields in between change nothing of it. *)
Theorem last_change_wins (cs : list Change) (values : SavingsInput) :
  ageRange (fold_left (fun v c => handleChange c v) cs values)
    = last_ageRange cs (ageRange values)
  /\ state (fold_left (fun v c => handleChange c v) cs values)
    = last_state cs (state values)
  /\ vehicleType (fold_left (fun v c => handleChange c v) cs values)
    = last_vehicleType cs (vehicleType values)
  /\ coverageLevel (fold_left (fun v c => handleChange c v) cs values)
    = last_coverageLevel cs (coverageLevel values)
  /\ drivingHistory (fold_left (fun v c => handleChange c v) cs values)
    = last_drivingHistory cs (drivingHistory values)
  /\ currentPremium (fold_left (fun v c => handleChange c v) cs values)
    = last_currentPremium cs (currentPremium values).
Proof.
  revert values. induction cs as [|c cs IH]; intros values; [cbn; tauto|].
  cbn [fold_left]. specialize (IH (handleChange c values)).
  destruct c; cbn [handleChange ageRange state vehicleType coverageLevel drivingHistory
                   currentPremium last_ageRange last_state last_vehicleType
                   last_coverageLevel last_drivingHistory last_currentPremium] in *;
    exact IH.
Qed.
